(** * generate_review_exclusion_list.py : extraction of review articles
      from MEDLINE exports and their export as an exclusion list.

    A shallow embedding of [ReviewExtractor] and [main], and the properties
    of the parser, the classifier and the exporter. *)

From Stdlib Require Import String Ascii NArith Arith Bool List Lia.
From Stdlib Require Import Sorted Permutation.
Import ListNotations.

(** ** Python strings

    A Python [str] is a sequence of Unicode code points; [len] counts code
    points and slices cut between them. *)

Definition char := N.
Definition str := list char.

(** The ASCII literals of the source, as code points. *)
Definition u (s : string) : str :=
  map N_of_ascii (list_ascii_of_string s).
Arguments u s%_string : simpl never.

Definition nl : char := 10%N.
Definition dash : char := 45%N.

Definition char_eqb (a b : char) : bool := N.eqb a b.

Fixpoint str_eqb (a b : str) : bool :=
  match a, b with
  | [], [] => true
  | x :: a', y :: b' => char_eqb x y && str_eqb a' b'
  | _, _ => false
  end.

(** [str.isspace] for one code point: the characters that [str.strip()]
    removes and that [\s] matches in a [str] pattern. *)
Definition is_space (c : char) : bool :=
  ((9 <=? c) && (c <=? 13) || (28 <=? c) && (c <=? 32)
   || (c =? 133) || (c =? 160) || (c =? 5760)
   || (8192 <=? c) && (c <=? 8202)
   || (c =? 8232) || (c =? 8233) || (c =? 8239) || (c =? 8287)
   || (c =? 12288))%N.

Fixpoint lstrip (s : str) : str :=
  match s with
  | [] => []
  | c :: s' => if is_space c then lstrip s' else s
  end.

Definition rstrip (s : str) : str := rev (lstrip (rev s)).

(** [s.strip()] *)
Definition strip (s : str) : str := rstrip (lstrip s).

(** [s.startswith(prefix)] *)
Fixpoint startswith (s prefix : str) {struct prefix} : bool :=
  match prefix with
  | [] => true
  | p :: prefix' =>
      match s with
      | [] => false
      | c :: s' => char_eqb c p && startswith s' prefix'
      end
  end.

(** [sub in s] on strings *)
Fixpoint contains (s sub : str) : bool :=
  startswith s sub
  || match s with
     | [] => false
     | _ :: s' => contains s' sub
     end.

(** Puts [c] in front of the first piece of a split. *)
Definition cons_first (c : char) (pieces : list str) : list str :=
  match pieces with
  | [] => [[c]]
  | p :: ps => (c :: p) :: ps
  end.

(** [s.split(sep)] for a one-character separator. *)
Fixpoint split (sep : char) (s : str) : list str :=
  match s with
  | [] => [[]]
  | c :: s' =>
      if char_eqb c sep then [] :: split sep s'
      else cons_first c (split sep s')
  end.

(** [s.split(sep, 1)] for a one-character separator: at most one cut, at the
    first separator. *)
Fixpoint split1 (sep : char) (s : str) : list str :=
  match s with
  | [] => [[]]
  | c :: s' =>
      if char_eqb c sep then [[]; s']
      else cons_first c (split1 sep s')
  end.

(** [sep.join(parts)] *)
Fixpoint join (sep : str) (parts : list str) : str :=
  match parts with
  | [] => []
  | [p] => p
  | p :: ps => p ++ sep ++ join sep ps
  end.

(** Truth value of a string: non-empty. *)
Definition truthy (s : str) : bool :=
  match s with
  | [] => false
  | _ :: _ => true
  end.

(** [str(n)] for a non-negative integer. *)
Fixpoint digits (d : Decimal.uint) : str :=
  match d with
  | Decimal.Nil => []
  | Decimal.D0 d' => 48%N :: digits d'
  | Decimal.D1 d' => 49%N :: digits d'
  | Decimal.D2 d' => 50%N :: digits d'
  | Decimal.D3 d' => 51%N :: digits d'
  | Decimal.D4 d' => 52%N :: digits d'
  | Decimal.D5 d' => 53%N :: digits d'
  | Decimal.D6 d' => 54%N :: digits d'
  | Decimal.D7 d' => 55%N :: digits d'
  | Decimal.D8 d' => 56%N :: digits d'
  | Decimal.D9 d' => 57%N :: digits d'
  end.

Definition str_of_nat (n : nat) : str := digits (Nat.to_uint n).

(** ** Exceptions *)

Inductive exn := IndexError | FileNotFoundError.

Inductive res (A : Type) : Type :=
| Ok (a : A)
| Raise (e : exn).
Arguments Ok {A} a.
Arguments Raise {A} e.

Definition res_bind {A B} (r : res A) (k : A -> res B) : res B :=
  match r with
  | Ok a => k a
  | Raise e => Raise e
  end.

Notation "'let*' x ':=' r 'in' k" := (res_bind r (fun x => k))
  (at level 10, x name, r at level 100, k at level 200).

(** [l[i]] *)
Definition getitem {A} (l : list A) (i : nat) : res A :=
  match nth_error l i with
  | Some x => Ok x
  | None => Raise IndexError
  end.

(** ** The article record and the field scan of a block *)

(** The dictionary returned by [_extract_if_review], with its three keys. *)
Record article := {
  pmid : str;
  title : str;
  publication_types : list str
}.

Inductive field_name := FTitle.

(** The local variables of [_extract_if_review]. *)
Record locals := {
  l_pmid : str;
  l_title : str;
  l_publication_types : list str;
  current_field : option field_name;
  current_value : str
}.

Definition locals0 : locals :=
  {| l_pmid := []; l_title := []; l_publication_types := [];
     current_field := None; current_value := [] |}.

(** [current_field == 'title'] *)
Definition in_title (f : option field_name) : bool :=
  match f with
  | Some FTitle => true
  | None => false
  end.

(** One iteration of the loop over the lines of a block. *)
Definition scan_line (st : locals) (line : str) : res locals :=
  if startswith line (u "PMID-") then
    let* rest := getitem (split1 dash line) 1 in
    Ok {| l_pmid := strip rest;
          l_title := l_title st;
          l_publication_types := l_publication_types st;
          current_field := current_field st;
          current_value := current_value st |}
  else if startswith line (u "TI  -") then
    let* rest := getitem (split1 dash line) 1 in
    Ok {| l_pmid := l_pmid st;
          l_title := l_title st;
          l_publication_types := l_publication_types st;
          current_field := Some FTitle;
          current_value := strip rest |}
  else if startswith line (u "PT  -") then
    let* rest := getitem (split1 dash line) 1 in
    let pub_type := strip rest in
    Ok {| l_pmid := l_pmid st;
          l_title := l_title st;
          l_publication_types := l_publication_types st ++ [pub_type];
          current_field := current_field st;
          current_value := current_value st |}
  else if startswith line (u "      ") && in_title (current_field st) then
    Ok {| l_pmid := l_pmid st;
          l_title := l_title st;
          l_publication_types := l_publication_types st;
          current_field := current_field st;
          current_value := current_value st ++ u " " ++ strip line |}
  else
    Ok {| l_pmid := l_pmid st;
          l_title := if in_title (current_field st) then current_value st
                     else l_title st;
          l_publication_types := l_publication_types st;
          current_field := None;
          current_value := [] |}.

(** The loop [for line in lines]. *)
Fixpoint scan_lines (st : locals) (lines : list str) : res locals :=
  match lines with
  | [] => Ok st
  | line :: lines' =>
      let* st' := scan_line st line in
      scan_lines st' lines'
  end.

(** "Don't forget the last field": the flush after the loop. *)
Definition flush_last (st : locals) : locals :=
  {| l_pmid := l_pmid st;
     l_title := if in_title (current_field st) then current_value st
                else l_title st;
     l_publication_types := l_publication_types st;
     current_field := current_field st;
     current_value := current_value st |}.

(** Lines 38 to 67 of [_extract_if_review]: the lines of the stripped block,
    the loop and the flush. *)
Definition scan_block (block : str) : res locals :=
  let lines := split nl (strip block) in
  let* st := scan_lines locals0 lines in
  Ok (flush_last st).

Definition review_keywords : list str :=
  [u "Review"; u "Systematic Review"; u "Meta-Analysis"; u "review"].

(** [x in l] on a list of strings. *)
Definition mem (x : str) (l : list str) : bool := existsb (str_eqb x) l.

(** The dictionary built from the locals. *)
Definition record_of (st : locals) : article :=
  {| pmid := l_pmid st; title := l_title st;
     publication_types := l_publication_types st |}.

Definition _extract_if_review (block : str) : res (option article) :=
  let* st := scan_block block in
  let is_review :=
    existsb (fun keyword => mem keyword (l_publication_types st))
            review_keywords in
  if is_review && truthy (l_pmid st) then Ok (Some (record_of st))
  else Ok None.

(** ** Splitting a file into blocks

    [re.split(r'\n\s*\n', content)].  A match starts at a newline and, [\s*]
    being greedy, ends at the last newline of the run of white space that
    follows it; there is no match at a newline whose following run of white
    space holds no newline.  The search resumes after the match. *)

(** Number of characters up to and including the last newline of the leading
    run of white space of [s], if that run holds a newline. *)
Fixpoint last_newline (s : str) : option nat :=
  match s with
  | [] => None
  | c :: s' =>
      if is_space c then
        match last_newline s' with
        | Some n => Some (S n)
        | None => if char_eqb c nl then Some 1 else None
        end
      else None
  end.

(** [skip] characters still belong to the separator just matched; [cur] is
    the current piece, reversed. *)
Fixpoint re_split_from (skip : nat) (cur : str) (s : str) : list str :=
  match s with
  | [] => [rev cur]
  | c :: s' =>
      match skip with
      | S k => re_split_from k cur s'
      | O =>
          if char_eqb c nl then
            match last_newline s' with
            | Some n => rev cur :: re_split_from n [] s'
            | None => re_split_from 0 (c :: cur) s'
            end
          else re_split_from 0 (c :: cur) s'
      end
  end.

Definition re_split_blank_lines (content : str) : list str :=
  re_split_from 0 [] content.

(** ** The state of a run

    The one [ReviewExtractor] instance with its list, what has been printed
    (one entry per call of [print]) and the files: a path is bound to the
    decoded text of a readable file, the most recent binding first.

    The files are the regular files of the run and nothing else: a path is
    either bound to the text of a file that can be read, or does not exist,
    and every path can be written.  A path that exists without naming such
    a file (a directory; the empty path, which [Path] takes for the current
    directory), a path that cannot be written, and two spellings of one
    file are outside of the model: there [open] raises, or one file answers
    to both paths, where the model has a warning, a new file or two
    files. *)

Record state := {
  review_articles : list article;
  stdout : list str;
  disk : list (str * str)
}.

Definition M (A : Type) : Type := state -> res (A * state).

Definition ret {A} (a : A) : M A := fun st => Ok (a, st).

Definition bind {A B} (m : M A) (k : A -> M B) : M B :=
  fun st =>
    match m st with
    | Ok (a, st') => k a st'
    | Raise e => Raise e
    end.

Notation "x <- m ;; k" := (bind m (fun x => k))
  (at level 61, m at next level, right associativity).
Notation "m ;; k" := (bind m (fun _ => k))
  (at level 61, right associativity).

(** A computation that may raise but touches no state. *)
Definition lift {A} (r : res A) : M A :=
  fun st =>
    match r with
    | Ok a => Ok (a, st)
    | Raise e => Raise e
    end.

Fixpoint for_each {A} (l : list A) (body : A -> M unit) : M unit :=
  match l with
  | [] => ret tt
  | x :: l' => body x ;; for_each l' body
  end.

Definition print (s : str) : M unit :=
  fun st =>
    Ok (tt, {| review_articles := review_articles st;
               stdout := stdout st ++ [s];
               disk := disk st |}).

Definition get_review_articles : M (list article) :=
  fun st => Ok (review_articles st, st).

Definition set_review_articles (l : list article) : M unit :=
  fun st =>
    Ok (tt, {| review_articles := l; stdout := stdout st; disk := disk st |}).

Fixpoint lookup (path : str) (d : list (str * str)) : option str :=
  match d with
  | [] => None
  | (p, c) :: d' => if str_eqb p path then Some c else lookup path d'
  end.

(** [Path(filepath).exists()] *)
Definition path_exists (path : str) : M bool :=
  fun st =>
    Ok (match lookup path (disk st) with Some _ => true | None => false end,
        st).

(** [open(filepath, 'r', ...)] followed by [file.read()]. *)
Definition read_file (path : str) : M str :=
  fun st =>
    match lookup path (disk st) with
    | Some content => Ok (content, st)
    | None => Raise FileNotFoundError
    end.

(** The file left by [open(filename, 'w', ...)] and the writes that follow:
    [content] is their concatenation. *)
Definition write_file (path content : str) : M unit :=
  fun st =>
    Ok (tt, {| review_articles := review_articles st;
               stdout := stdout st;
               disk := (path, content) :: disk st |}).

(** ** ReviewExtractor *)

Definition ReviewExtractor__init__ : M unit := set_review_articles [].

(** The body of the loop over the blocks of a file. *)
Definition parse_block (block : str) : M unit :=
  if truthy (strip block) then
    review_info <- lift (_extract_if_review block) ;;
    match review_info with
    | Some info =>
        articles <- get_review_articles ;;
        set_review_articles (articles ++ [info])
    | None => ret tt
    end
  else ret tt.

Definition parse_medline_file (filepath : str) : M unit :=
  print (u "Parsing file: " ++ filepath) ;;
  content <- read_file filepath ;;
  let article_blocks := re_split_blank_lines content in
  for_each article_blocks parse_block ;;
  articles <- get_review_articles ;;
  print (u "Found " ++ str_of_nat (length articles)
           ++ u " review articles in " ++ filepath).

(** What the loop of [export_for_webapp] writes for one article. *)
Definition export_line (format_type : str) (a : article) : str :=
  if str_eqb format_type (u "pmid") then
    pmid a ++ [nl]
  else if str_eqb format_type (u "pmid_with_title") then
    u "PMID-" ++ pmid a ++ u " # " ++ firstn 80 (title a)
      ++ (if 80 <? length (title a) then u "..." else []) ++ [nl]
  else if str_eqb format_type (u "title") then
    title a ++ [nl]
  else [].

(** The four writes before the loop. *)
Definition export_header (count : nat) : str :=
  (u "# Review articles exclusion list" ++ [nl])
    ++ (u "# Generated automatically from MEDLINE publication types" ++ [nl])
    ++ (u "# Total reviews found: " ++ str_of_nat count ++ [nl])
    ++ (u "# Format: PMID per line" ++ [nl; nl]).

Definition export_text (format_type : str) (articles : list article) : str :=
  export_header (length articles)
    ++ flat_map (export_line format_type) articles.

Definition export_for_webapp (filename format_type : str) : M unit :=
  articles <- get_review_articles ;;
  write_file filename (export_text format_type articles) ;;
  print (u "Exported " ++ str_of_nat (length articles)
           ++ u " review articles to " ++ filename).

(** [Counter(iterable)]: the counts, in order of first occurrence. *)
Fixpoint counter_add (x : str) (c : list (str * nat)) : list (str * nat) :=
  match c with
  | [] => [(x, 1)]
  | (y, n) :: c' =>
      if str_eqb y x then (y, S n) :: c' else (y, n) :: counter_add x c'
  end.

Definition Counter (l : list str) : list (str * nat) :=
  fold_left (fun c x => counter_add x c) l [].

(** [most_common()]: a stable sort by decreasing count. *)
Fixpoint insert_by_count (p : str * nat) (l : list (str * nat))
  : list (str * nat) :=
  match l with
  | [] => [p]
  | q :: l' =>
      if snd q <=? snd p then p :: l else q :: insert_by_count p l'
  end.

Definition most_common (c : list (str * nat)) : list (str * nat) :=
  fold_right insert_by_count [] c.

(** [enumerate(l)], from [i]. *)
Fixpoint enumerate_from {A} (i : nat) (l : list A) : list (nat * A) :=
  match l with
  | [] => []
  | x :: l' => (i, x) :: enumerate_from (S i) l'
  end.

(** The body of the loop of [main] over [args.files]. *)
Definition main_file (filepath : str) : M unit :=
  found <- path_exists filepath ;;
  if found then parse_medline_file filepath
  else print (u "Warning: File " ++ filepath ++ u " not found").

Section Run.

(** [str.lower()], the Unicode lower-casing of the interpreter. *)
Variable lower : str -> str.

Definition show_statistics : M unit :=
  articles <- get_review_articles ;;
  match articles with
  | [] => print (u "No review articles found.")
  | _ :: _ =>
      print (nl :: u "Review Articles Statistics:") ;;
      print (u "Total review articles: " ++ str_of_nat (length articles)) ;;
      let all_types := flat_map publication_types articles in
      let type_counts := Counter all_types in
      print (nl :: u "Publication types found:") ;;
      for_each (most_common type_counts) (fun '(pub_type, count) =>
        if existsb (fun keyword => contains (lower pub_type) (lower keyword))
                   [u "review"; u "meta"]
        then print (u "  " ++ pub_type ++ u ": " ++ str_of_nat count)
        else ret tt) ;;
      print (nl :: u "First 5 review articles:") ;;
      for_each (enumerate_from 0 (firstn 5 articles)) (fun '(i, article) =>
        print (u "  " ++ str_of_nat (i + 1) ++ u ". PMID " ++ pmid article
                 ++ u ": " ++ firstn 60 (title article)
                 ++ (if 60 <? length (title article) then u "..." else [])) ;;
        print (u "     Types: "
                 ++ join (u ", ") (publication_types article)))
  end.

(** [main], after [parse_args]: [files] is [args.files], [output] is
    [args.output] and [format] is [args.format]. *)
Definition main (files : list str) (output format : str) : M unit :=
  ReviewExtractor__init__ ;;
  for_each files main_file ;;
  show_statistics ;;
  articles <- get_review_articles ;;
  match articles with
  | _ :: _ =>
      export_for_webapp output format ;;
      print (nl :: u "Use this file in your web app as the 'Review Articles' exclusion list to get the same 136 reviews.")
  | [] =>
      print (nl :: u "No review articles found to export.")
  end.

End Run.

(** ** Notions used to state the properties *)

(** A string without newline. *)
Definition one_line (s : str) : Prop := ~ In nl s.

(** The lines that continue a title whose [TI  -] line stands just before
    [post], in a block where no title line follows: identifier and
    publication-type lines are passed over, any other line that is not
    indented ends the title. *)
Fixpoint continuation_lines (post : list str) : list str :=
  match post with
  | [] => []
  | l :: post' =>
      if startswith l (u "PMID-") || startswith l (u "PT  -") then
        continuation_lines post'
      else if startswith l (u "      ") then l :: continuation_lines post'
      else []
  end.

(** The records a block and a file add to the list. *)
Definition block_reviews (block : str) : list article :=
  match _extract_if_review block with
  | Ok (Some info) => [info]
  | _ => []
  end.

Definition file_reviews (content : str) : list article :=
  flat_map block_reviews (re_split_blank_lines content).

(** The text made of the given lines, each ended by a newline. *)
Definition unlines (ls : list str) : str :=
  flat_map (fun l => l ++ [nl]) ls.

(** The lines of the header of an export of [count] records. *)
Definition header_lines (count : nat) : list str :=
  [u "# Review articles exclusion list";
   u "# Generated automatically from MEDLINE publication types";
   u "# Total reviews found: " ++ str_of_nat count;
   u "# Format: PMID per line"].

(** The line of an article in a recognized format, without its newline. *)
Definition is_data_line (format_type : str) (a : article) (l : str) : Prop :=
  (format_type = u "pmid" -> l = pmid a)
  /\ (format_type = u "pmid_with_title" ->
      l = u "PMID-" ++ pmid a ++ u " # " ++ firstn 80 (title a)
            ++ (if 80 <? length (title a) then u "..." else []))
  /\ (format_type = u "title" -> l = title a).

(** The state [s] after [out] has been printed. *)
Definition printed (s : state) (out : list str) : state :=
  {| review_articles := review_articles s;
     stdout := stdout s ++ out;
     disk := disk s |}.

(** The contents of the files of [files] that exist, in order. *)
Definition existing (d : list (str * str)) (files : list str) : list str :=
  flat_map (fun path => match lookup path d with
                        | Some content => [content]
                        | None => []
                        end) files.

(** What the loop of [main] prints, [n] records being in the list. *)
Fixpoint loop_prints (d : list (str * str)) (n : nat) (files : list str)
  : list str :=
  match files with
  | [] => []
  | path :: files' =>
      match lookup path d with
      | Some content =>
          let n' := n + length (file_reviews content) in
          [u "Parsing file: " ++ path;
           u "Found " ++ str_of_nat n' ++ u " review articles in " ++ path]
            ++ loop_prints d n' files'
      | None =>
          (u "Warning: File " ++ path ++ u " not found")
            :: loop_prints d n files'
      end
  end.

(** A computation that only prints. *)
Definition only_prints (m : M unit) : Prop :=
  forall s, exists out, m s = Ok (tt, printed s out).

Definition example_block : str :=
  u "PMID- 12345" ++ nl :: u "TI  - A Study of" ++ nl
    :: u "      Widgets" ++ nl :: u "PT  - Review".

(** A string of white space only. *)
Definition blank (l : str) : bool := forallb is_space l.

(** The count bound to [x] in a table of counts, 0 when there is none. *)
Fixpoint count_of (x : str) (c : list (str * nat)) : nat :=
  match c with
  | [] => 0
  | (y, n) :: c' => if str_eqb y x then n else count_of x c'
  end.

(** Number of occurrences of [x] in [l]. *)
Definition occurrences (x : str) (l : list str) : nat :=
  length (filter (str_eqb x) l).

(** The text of a file whose blocks are given by their lines: the lines of
    a block are joined by a newline, the blocks by an empty line. *)
Definition blocks_text (blocks : list (list str)) : str :=
  join [nl; nl] (map (join [nl]) blocks).

(** What holds of every record that is retained. *)
Definition clean (a : article) : Prop :=
  pmid a <> []
  /\ strip (pmid a) = pmid a
  /\ one_line (pmid a)
  /\ one_line (title a)
  /\ Forall (fun t => strip t = t /\ one_line t) (publication_types a)
  /\ exists keyword,
       In keyword review_keywords /\ In keyword (publication_types a).

(** A computation that prints [out] and does nothing else. *)
Definition emits (m : M unit) (out : list str) : Prop :=
  forall s, m s = Ok (tt, printed s out).

(** ** Facts about strings *)

Lemma Ok_inj {A} (a b : A) : Ok a = Ok b -> a = b.
Proof. congruence. Qed.

Lemma char_eqb_eq (a b : char) : char_eqb a b = true <-> a = b.
Proof. apply N.eqb_eq. Qed.

Lemma str_eqb_eq (a b : str) : str_eqb a b = true <-> a = b.
Proof.
  revert b; induction a as [|x a IH]; intros [|y b]; simpl;
    try (split; [discriminate | discriminate]); try tauto.
  rewrite andb_true_iff, char_eqb_eq, IH.
  split; [intros [-> ->]; reflexivity | intros E; inversion E; auto].
Qed.

Lemma str_eqb_refl (a : str) : str_eqb a a = true.
Proof. apply str_eqb_eq; reflexivity. Qed.

Lemma str_eqb_neq (a b : str) : a <> b -> str_eqb a b = false.
Proof.
  intros H; destruct (str_eqb a b) eqn:E; [|reflexivity].
  apply str_eqb_eq in E; contradiction.
Qed.

Lemma mem_In (x : str) (l : list str) : mem x l = true <-> In x l.
Proof.
  unfold mem; rewrite existsb_exists; split.
  - intros [y [Hy E]]; apply str_eqb_eq in E; subst; exact Hy.
  - intros H; exists x; split; [exact H | apply str_eqb_refl].
Qed.

Lemma startswith_prefix (s p : str) :
  startswith s p = true -> exists t, s = p ++ t.
Proof.
  revert s; induction p as [|c p IH]; intros s H; simpl in H.
  - exists s; reflexivity.
  - destruct s as [|d s]; [discriminate|].
    apply andb_true_iff in H; destruct H as [E H].
    apply char_eqb_eq in E; subst d.
    destruct (IH _ H) as [t ->]; exists t; reflexivity.
Qed.

Lemma startswith_app (p t : str) : startswith (p ++ t) p = true.
Proof.
  induction p as [|c p IH]; simpl; [reflexivity|].
  rewrite IH; unfold char_eqb; rewrite N.eqb_refl; reflexivity.
Qed.

Lemma lstrip_incl (s : str) (c : char) : In c (lstrip s) -> In c s.
Proof.
  induction s as [|d s IH]; simpl; [tauto|].
  destruct (is_space d); simpl; tauto.
Qed.

Lemma strip_incl (s : str) (c : char) : In c (strip s) -> In c s.
Proof.
  unfold strip, rstrip; intros H.
  apply in_rev, lstrip_incl, in_rev, lstrip_incl in H; exact H.
Qed.

Lemma skipn_incl (n : nat) (s : str) (c : char) : In c (skipn n s) -> In c s.
Proof.
  revert s; induction n as [|n IH]; intros [|d s]; simpl; auto.
Qed.

Lemma firstn_incl (n : nat) (s : str) (c : char) :
  In c (firstn n s) -> In c s.
Proof.
  revert s; induction n as [|n IH]; intros [|d s]; simpl; try tauto.
  intros [H|H]; auto.
Qed.

Lemma one_line_strip (s : str) : one_line s -> one_line (strip s).
Proof. intros H K; apply H, strip_incl, K. Qed.

Lemma one_line_skipn (n : nat) (s : str) : one_line s -> one_line (skipn n s).
Proof. intros H K; apply H, (skipn_incl n), K. Qed.

Lemma one_line_firstn (n : nat) (s : str) :
  one_line s -> one_line (firstn n s).
Proof. intros H K; apply H, (firstn_incl n), K. Qed.

Lemma one_line_app (a b : str) : one_line a -> one_line b -> one_line (a ++ b).
Proof. unfold one_line; intros Ha Hb K; apply in_app_or in K; tauto. Qed.

Lemma one_line_u (s : string) :
  forallb (fun c => negb (char_eqb c nl)) (u s) = true -> one_line (u s).
Proof.
  intros H K; rewrite forallb_forall in H.
  specialize (H _ K); unfold char_eqb in H; rewrite N.eqb_refl in H.
  discriminate.
Qed.

Lemma split_one_line (s l : str) : In l (split nl s) -> one_line l.
Proof.
  revert l; induction s as [|c s IH]; intros l; simpl.
  - intros [<-|[]]; intros [].
  - destruct (char_eqb c nl) eqn:E.
    + intros [<-|H]; [intros [] | auto].
    + destruct (split nl s) as [|p ps]; simpl.
      * intros [<-|[]] [K|[]]; subst c.
        unfold char_eqb in E; rewrite N.eqb_refl in E; discriminate.
      * intros [<-|H].
        -- intros [K|K].
           ++ subst c; unfold char_eqb in E; rewrite N.eqb_refl in E;
                discriminate.
           ++ exact (IH p (or_introl eq_refl) K).
        -- apply IH; right; exact H.
Qed.

Lemma digits_one_line (d : Decimal.uint) : one_line (digits d).
Proof.
  unfold one_line; induction d; simpl; try tauto;
    intros [K|K]; try discriminate; tauto.
Qed.

Lemma str_of_nat_one_line (n : nat) : one_line (str_of_nat n).
Proof. apply digits_one_line. Qed.

(** ** The cases of [scan_line] *)

Lemma scan_line_PMID (st : locals) (line : str) :
  startswith line (u "PMID-") = true ->
  scan_line st line =
    Ok {| l_pmid := strip (skipn 5 line);
          l_title := l_title st;
          l_publication_types := l_publication_types st;
          current_field := current_field st;
          current_value := current_value st |}.
Proof.
  intros H; destruct (startswith_prefix _ _ H) as [t ->]; reflexivity.
Qed.

Lemma scan_line_TI (st : locals) (line : str) :
  startswith line (u "TI  -") = true ->
  scan_line st line =
    Ok {| l_pmid := l_pmid st;
          l_title := l_title st;
          l_publication_types := l_publication_types st;
          current_field := Some FTitle;
          current_value := strip (skipn 5 line) |}.
Proof.
  intros H; destruct (startswith_prefix _ _ H) as [t ->]; reflexivity.
Qed.

Lemma scan_line_PT (st : locals) (line : str) :
  startswith line (u "PT  -") = true ->
  scan_line st line =
    Ok {| l_pmid := l_pmid st;
          l_title := l_title st;
          l_publication_types :=
            l_publication_types st ++ [strip (skipn 5 line)];
          current_field := current_field st;
          current_value := current_value st |}.
Proof.
  intros H; destruct (startswith_prefix _ _ H) as [t ->]; reflexivity.
Qed.

Lemma scan_line_continuation (st : locals) (line : str) :
  startswith line (u "      ") = true ->
  current_field st = Some FTitle ->
  scan_line st line =
    Ok {| l_pmid := l_pmid st;
          l_title := l_title st;
          l_publication_types := l_publication_types st;
          current_field := Some FTitle;
          current_value := current_value st ++ u " " ++ strip line |}.
Proof.
  intros H F; destruct (startswith_prefix _ _ H) as [t ->].
  unfold scan_line; rewrite F; reflexivity.
Qed.

Lemma scan_line_other (st : locals) (line : str) :
  startswith line (u "PMID-") = false ->
  startswith line (u "TI  -") = false ->
  startswith line (u "PT  -") = false ->
  startswith line (u "      ") && in_title (current_field st) = false ->
  scan_line st line =
    Ok {| l_pmid := l_pmid st;
          l_title := if in_title (current_field st) then current_value st
                     else l_title st;
          l_publication_types := l_publication_types st;
          current_field := None;
          current_value := [] |}.
Proof.
  intros H1 H2 H3 H4; unfold scan_line; rewrite H1, H2, H3, H4; reflexivity.
Qed.

(** The five branches, told apart by the line alone and the cursor. *)
Lemma scan_line_cases (st : locals) (line : str) :
  startswith line (u "PMID-") = true
  \/ (startswith line (u "PMID-") = false
      /\ startswith line (u "TI  -") = true)
  \/ (startswith line (u "PMID-") = false
      /\ startswith line (u "TI  -") = false
      /\ startswith line (u "PT  -") = true)
  \/ (startswith line (u "PMID-") = false
      /\ startswith line (u "TI  -") = false
      /\ startswith line (u "PT  -") = false
      /\ startswith line (u "      ") = true
      /\ current_field st = Some FTitle)
  \/ (startswith line (u "PMID-") = false
      /\ startswith line (u "TI  -") = false
      /\ startswith line (u "PT  -") = false
      /\ startswith line (u "      ") && in_title (current_field st) = false).
Proof.
  destruct (startswith line (u "PMID-")); [tauto|].
  destruct (startswith line (u "TI  -")); [tauto|].
  destruct (startswith line (u "PT  -")); [tauto|].
  destruct (startswith line (u "      ")) eqn:E; [|simpl; tauto].
  destruct (current_field st) as [[]|]; simpl; tauto.
Qed.

Lemma scan_line_total (st : locals) (line : str) :
  exists st', scan_line st line = Ok st'.
Proof.
  destruct (scan_line_cases st line)
    as [H|[[_ H]|[[_ [_ H]]|[[_ [_ [_ [H F]]]]|[H1 [H2 [H3 H4]]]]]]].
  - rewrite scan_line_PMID by exact H; eauto.
  - rewrite scan_line_TI by exact H; eauto.
  - rewrite scan_line_PT by exact H; eauto.
  - rewrite scan_line_continuation by assumption; eauto.
  - rewrite scan_line_other by assumption; eauto.
Qed.

Lemma scan_lines_total (lines : list str) :
  forall st, exists st', scan_lines st lines = Ok st'.
Proof.
  induction lines as [|line lines IH]; intros st; simpl.
  - eauto.
  - destruct (scan_line_total st line) as [st1 ->]; simpl; apply IH.
Qed.

Lemma scan_lines_app (a b : list str) :
  forall st,
    scan_lines st (a ++ b) = let* st' := scan_lines st a in scan_lines st' b.
Proof.
  induction a as [|line a IH]; intros st; simpl; [reflexivity|].
  destruct (scan_line st line) as [st1|e]; simpl; [apply IH | reflexivity].
Qed.

Lemma scan_block_total (block : str) : exists st, scan_block block = Ok st.
Proof.
  unfold scan_block.
  destruct (scan_lines_total (split nl (strip block)) locals0) as [st ->].
  simpl; eauto.
Qed.

(** ** Titles and identifiers across the lines of a block *)

Lemma six_spaces_not_field (l : str) :
  startswith l (u "      ") = true ->
  startswith l (u "PMID-") = false
  /\ startswith l (u "TI  -") = false
  /\ startswith l (u "PT  -") = false.
Proof.
  intros H; destruct (startswith_prefix _ _ H) as [t ->].
  repeat split; reflexivity.
Qed.

Lemma scan_lines_no_title_line (post : list str) :
  Forall (fun l => startswith l (u "TI  -") = false) post ->
  forall st, exists st',
    scan_lines st post = Ok st'
    /\ l_title (flush_last st') =
         if in_title (current_field st)
         then current_value st
                ++ flat_map (fun l => u " " ++ strip l)
                            (continuation_lines post)
         else l_title st.
Proof.
  induction 1 as [|l post Hl Hpost IH]; intros st.
  - exists st; split; [reflexivity|].
    cbn [flush_last l_title continuation_lines flat_map].
    destruct (in_title (current_field st)); [|reflexivity].
    rewrite app_nil_r; reflexivity.
  - cbn [scan_lines continuation_lines].
    destruct (scan_line_cases st l)
      as [H|[[_ H]|[[H1 [_ H]]|[[H1 [_ [H3 [H F]]]]|[H1 [H2 [H3 H4]]]]]]].
    + rewrite (scan_line_PMID st l H), H.
      cbn [res_bind orb].
      match goal with |- context [scan_lines ?s post] =>
        destruct (IH s) as [st' [E T]] end.
      exists st'; split; [exact E | exact T].
    + congruence.
    + rewrite (scan_line_PT st l H), H1, H.
      cbn [res_bind orb].
      match goal with |- context [scan_lines ?s post] =>
        destruct (IH s) as [st' [E T]] end.
      exists st'; split; [exact E | exact T].
    + rewrite (scan_line_continuation st l H F), H1, H3, H, F.
      cbn [res_bind orb in_title flat_map].
      match goal with |- context [scan_lines ?s post] =>
        destruct (IH s) as [st' [E T]] end.
      exists st'; split; [exact E|].
      rewrite T; cbn [current_field current_value in_title].
      rewrite <- !app_assoc; reflexivity.
    + rewrite (scan_line_other st l H1 H2 H3 H4), H1, H3.
      cbn [res_bind orb].
      match goal with |- context [scan_lines ?s post] =>
        destruct (IH s) as [st' [E T]] end.
      exists st'; split; [exact E|].
      rewrite T; cbn [current_field l_title in_title].
      destruct (in_title (current_field st)); [|reflexivity].
      rewrite andb_true_r in H4; rewrite H4.
      cbn [flat_map]; rewrite app_nil_r; reflexivity.
Qed.

Lemma scan_lines_no_pmid_line (post : list str) :
  Forall (fun l => startswith l (u "PMID-") = false) post ->
  forall st, exists st',
    scan_lines st post = Ok st' /\ l_pmid st' = l_pmid st.
Proof.
  induction 1 as [|l post Hl Hpost IH]; intros st.
  - exists st; split; reflexivity.
  - cbn [scan_lines].
    destruct (scan_line_cases st l)
      as [H|[[_ H]|[[_ [_ H]]|[[_ [_ [_ [H F]]]]|[H1 [H2 [H3 H4]]]]]]];
      [congruence | rewrite (scan_line_TI st l H)
       | rewrite (scan_line_PT st l H)
       | rewrite (scan_line_continuation st l H F)
       | rewrite (scan_line_other st l H1 H2 H3 H4)];
      cbn [res_bind];
      match goal with |- context [scan_lines ?s post] =>
        destruct (IH s) as [st' [E T]] end;
      exists st'; (split; [exact E | exact T]).
Qed.

Lemma continuation_lines_none (post : list str) :
  Forall (fun l => startswith l (u "      ") = false) post ->
  continuation_lines post = [].
Proof.
  induction 1 as [|l post Hl Hpost IH]; [reflexivity|].
  cbn [continuation_lines]; rewrite Hl, IH; destruct (_ || _); reflexivity.
Qed.

(** The scan of a block whose lines are [pre], then [line], then [post]. *)
Lemma scan_block_split (block : str) (pre post : list str) (line : str) :
  split nl (strip block) = pre ++ line :: post ->
  exists st0 st1 st2,
    scan_lines locals0 pre = Ok st0
    /\ scan_line st0 line = Ok st1
    /\ scan_lines st1 post = Ok st2
    /\ scan_block block = Ok (flush_last st2).
Proof.
  intros E; unfold scan_block; rewrite E, scan_lines_app.
  destruct (scan_lines_total pre locals0) as [st0 E0].
  destruct (scan_line_total st0 line) as [st1 E1].
  destruct (scan_lines_total post st1) as [st2 E2].
  exists st0, st1, st2; rewrite E0; cbn [res_bind scan_lines].
  rewrite E1; cbn [res_bind]; rewrite E2.
  repeat split; reflexivity.
Qed.

Lemma extract_of_scan (block : str) (st : locals) :
  scan_block block = Ok st ->
  _extract_if_review block =
    Ok (if existsb (fun keyword => mem keyword (l_publication_types st))
                   review_keywords
           && truthy (l_pmid st)
        then Some (record_of st) else None).
Proof.
  intros E; unfold _extract_if_review; rewrite E; cbn [res_bind].
  destruct (_ && _); reflexivity.
Qed.

Lemma extract_total (block : str) :
  exists o, _extract_if_review block = Ok o.
Proof.
  destruct (scan_block_total block) as [st E].
  rewrite (extract_of_scan block st E); eauto.
Qed.

Lemma truthy_true (s : str) : truthy s = true <-> s <> [].
Proof. destruct s; simpl; split; congruence. Qed.

Lemma is_review_true (pts : list str) :
  existsb (fun keyword => mem keyword pts) review_keywords = true
  <-> exists keyword, In keyword review_keywords /\ In keyword pts.
Proof.
  rewrite existsb_exists; split; intros [k [H1 H2]]; exists k;
    (split; [exact H1 | apply mem_In; exact H2]).
Qed.

Lemma extract_blank (block : str) :
  strip block = [] -> _extract_if_review block = Ok None.
Proof.
  intros E; unfold _extract_if_review, scan_block; rewrite E; reflexivity.
Qed.

Lemma parse_block_some (block : str) (info : article) (s : state) :
  _extract_if_review block = Ok (Some info) ->
  parse_block block s =
    Ok (tt, {| review_articles := review_articles s ++ [info];
               stdout := stdout s; disk := disk s |}).
Proof.
  intros E; unfold parse_block.
  destruct (truthy (strip block)) eqn:T.
  - unfold bind, lift; rewrite E; reflexivity.
  - destruct (strip block) eqn:S; [|discriminate].
    rewrite (extract_blank block S) in E; discriminate.
Qed.

Lemma parse_block_none (block : str) (s : state) :
  _extract_if_review block = Ok None ->
  parse_block block s = Ok (tt, s).
Proof.
  intros E; unfold parse_block.
  destruct (truthy (strip block)); [|reflexivity].
  unfold bind, lift; rewrite E; reflexivity.
Qed.

(** ** The classification of a block *)

(** C1.  The record scanned from a block is returned, and appended to the
    list of review articles, exactly when its identifier is not empty and
    one of its publication types is, as a whole string, "Review",
    "Systematic Review", "Meta-Analysis" or "review"; otherwise nothing is
    returned and the list is left as it was.  A block without [PMID-] line
    is not retained, and the publication type "review article", which holds
    "review" as a substring only, does not qualify. *)
Theorem review_retained_iff (block : str) :
  exists st,
    scan_block block = Ok st
    /\ (forall info,
          _extract_if_review block = Ok (Some info) <->
          info = record_of st
          /\ pmid (record_of st) <> []
          /\ exists keyword,
               In keyword [u "Review"; u "Systematic Review";
                           u "Meta-Analysis"; u "review"]
               /\ In keyword (publication_types (record_of st)))
    /\ (_extract_if_review block = Ok (Some (record_of st))
        \/ _extract_if_review block = Ok None)
    /\ (forall info s,
          _extract_if_review block = Ok (Some info) ->
          parse_block block s =
            Ok (tt, {| review_articles := review_articles s ++ [info];
                       stdout := stdout s; disk := disk s |}))
    /\ (forall s,
          _extract_if_review block = Ok None ->
          parse_block block s = Ok (tt, s))
    /\ (Forall (fun l => startswith l (u "PMID-") = false)
               (split nl (strip block)) ->
        _extract_if_review block = Ok None)
    /\ contains (u "review article") (u "review") = true
    /\ _extract_if_review (u "PMID- 1" ++ nl :: u "PT  - review article")
       = Ok None.
Proof.
  destruct (scan_block_total block) as [st E].
  pose proof (extract_of_scan block st E) as X.
  exists st; split; [exact E|].
  split; [|split; [|split; [|split; [|split; [|split]]]]].
  - intros info; rewrite X.
    destruct (existsb _ review_keywords) eqn:R;
      destruct (truthy (l_pmid st)) eqn:T; cbn [andb].
    + split.
      * intros K; injection K as <-.
        split; [reflexivity|]; split.
        -- apply truthy_true; exact T.
        -- apply is_review_true; exact R.
      * intros [-> _]; reflexivity.
    + split; [discriminate|].
      intros [_ [K _]]; apply truthy_true in K.
      cbn [record_of pmid] in K; congruence.
    + split; [discriminate|].
      intros [_ [_ K]]; apply is_review_true in K.
      cbn [record_of publication_types] in K; congruence.
    + split; [discriminate|].
      intros [_ [K _]]; apply truthy_true in K.
      cbn [record_of pmid] in K; congruence.
  - rewrite X; destruct (_ && _); [left | right]; reflexivity.
  - intros info s; apply parse_block_some.
  - intros s; apply parse_block_none.
  - intros F; rewrite X.
    destruct (scan_lines_no_pmid_line _ F locals0) as [st' [E' P]].
    unfold scan_block in E; rewrite E' in E; cbn [res_bind] in E.
    injection E as <-.
    cbn [flush_last l_pmid]; rewrite P.
    cbn [locals0 l_pmid truthy]; rewrite andb_false_r; reflexivity.
  - reflexivity.
  - reflexivity.
Qed.

Lemma review_retained_iff_witness :
  exists st,
    scan_block example_block = Ok st
    /\ _extract_if_review example_block = Ok (Some (record_of st)).
Proof.
  destruct (review_retained_iff example_block) as [st [E [I _]]].
  exists st; split; [exact E|].
  apply I; split; [reflexivity|].
  assert (S : Ok st
              = Ok {| l_pmid := u "12345"; l_title := u "A Study of Widgets";
                      l_publication_types := [u "Review"];
                      current_field := Some FTitle;
                      current_value := u "A Study of Widgets" |}).
  { rewrite <- E; vm_compute; reflexivity. }
  injection S as ->; split.
  - discriminate.
  - exists (u "Review"); split; left; reflexivity.
Defined.

(** ** Publication-type lines *)

(** C2.  The code departs from it.  In the first block the indented line
    comes after the [PT  -] line, with no [TI  -] line in between, and is
    appended to the title all the same: the branch of the [PT  -] lines
    leaves the cursor in the title.  In the second block a line of another
    field stands where the [PT  -] line stood: the last branch of the loop
    ends the cursor, and the indented line is not appended. *)
Theorem PT_line_keeps_title_cursor :
  split nl (strip (u "PMID- 1" ++ nl :: u "TI  - A" ++ nl
                     :: u "PT  - Review" ++ nl :: u "      B"))
  = [u "PMID- 1"; u "TI  - A"; u "PT  - Review"; u "      B"]
  /\ _extract_if_review
       (u "PMID- 1" ++ nl :: u "TI  - A" ++ nl :: u "PT  - Review" ++ nl
          :: u "      B")
     = Ok (Some {| pmid := u "1"; title := u "A B";
                   publication_types := [u "Review"] |})
  /\ _extract_if_review
       (u "PMID- 1" ++ nl :: u "TI  - A" ++ nl :: u "AB  - x" ++ nl
          :: u "      B" ++ nl :: u "PT  - Review")
     = Ok (Some {| pmid := u "1"; title := u "A";
                   publication_types := [u "Review"] |}).
Proof.
  split; [reflexivity|]; split; reflexivity.
Qed.

(** ** Titles *)

Lemma scan_title_line (st0 st1 st2 : locals) (line : str) (post : list str) :
  startswith line (u "TI  -") = true ->
  Forall (fun l => startswith l (u "TI  -") = false) post ->
  scan_line st0 line = Ok st1 ->
  scan_lines st1 post = Ok st2 ->
  l_title (flush_last st2) =
    strip (skipn 5 line)
      ++ flat_map (fun l => u " " ++ strip l) (continuation_lines post).
Proof.
  intros H F E1 E2.
  rewrite (scan_line_TI st0 line H) in E1; apply Ok_inj in E1; subst st1.
  destruct (scan_lines_no_title_line post F
              {| l_pmid := l_pmid st0; l_title := l_title st0;
                 l_publication_types := l_publication_types st0;
                 current_field := Some FTitle;
                 current_value := strip (skipn 5 line) |}) as [st' [E T]].
  rewrite E in E2; apply Ok_inj in E2; subst st2; exact T.
Qed.

(** C6.  The code departs from it.  In the block below the identifier is
    the one of the last [PMID-] line and the text of the first [TI  -] line
    is discarded, but the title does not come from the last [TI  -] line
    and its continuation lines only: the indented line that comes after
    the [PT  -] line is appended to it, and the title is "New C". *)
Theorem last_title_takes_line_after_PT_line :
  split nl (strip (u "PMID- 1" ++ nl :: u "TI  - Old" ++ nl :: u "PMID- 2"
                     ++ nl :: u "TI  - New" ++ nl :: u "PT  - Review" ++ nl
                     :: u "      C"))
  = [u "PMID- 1"; u "TI  - Old"; u "PMID- 2"; u "TI  - New";
     u "PT  - Review"; u "      C"]
  /\ _extract_if_review
       (u "PMID- 1" ++ nl :: u "TI  - Old" ++ nl :: u "PMID- 2" ++ nl
          :: u "TI  - New" ++ nl :: u "PT  - Review" ++ nl :: u "      C")
     = Ok (Some {| pmid := u "2"; title := u "New C";
                   publication_types := [u "Review"] |}).
Proof.
  split; reflexivity.
Qed.

(** ** The exported text *)

Lemma export_header_lines (count : nat) :
  export_header count = unlines (header_lines count ++ [[]]).
Proof.
  unfold export_header, unlines, header_lines.
  cbn [app flat_map]; rewrite <- !app_assoc; reflexivity.
Qed.

Lemma header_lines_one_line (count : nat) :
  Forall (fun h => startswith h (u "#") = true /\ one_line h)
         (header_lines count).
Proof.
  unfold header_lines; repeat constructor;
    try (apply one_line_u; reflexivity).
  apply one_line_app; [apply one_line_u; reflexivity|].
  apply str_of_nat_one_line.
Qed.

Lemma unlines_app (a b : list str) : unlines (a ++ b) = unlines a ++ unlines b.
Proof. unfold unlines; apply flat_map_app. Qed.

(** C5.  In [pmid_with_title] format the export writes, after the header
    and its empty line, one line for each record of the list, in order,
    made of "PMID-", the identifier, " # " and the title; a title of more
    than 80 characters is cut to its first 80 characters followed by
    "...", a title of 80 characters or fewer is written in full and without
    "...".  A title of 90 characters is written as its first 80 characters
    and "...".  A record without newline in its identifier and title gives
    a line without newline. *)
Theorem title_comment_truncated (filename : str) (s : state) :
  exists lines,
    export_for_webapp filename (u "pmid_with_title") s =
      Ok (tt,
          {| review_articles := review_articles s;
             stdout :=
               stdout s
                 ++ [u "Exported " ++ str_of_nat (length (review_articles s))
                       ++ u " review articles to " ++ filename];
             disk :=
               (filename,
                unlines (header_lines (length (review_articles s))
                           ++ [[]] ++ lines)) :: disk s |})
    /\ Forall2
         (fun a line =>
            exists shown,
              line = u "PMID-" ++ pmid a ++ u " # " ++ shown
              /\ (length (title a) <= 80 -> shown = title a)
              /\ (80 < length (title a) ->
                  shown = firstn 80 (title a) ++ u "..."
                  /\ length shown = 83)
              /\ (length (title a) = 90 ->
                  shown = firstn 80 (title a) ++ u "...")
              /\ (one_line (pmid a) -> one_line (title a) -> one_line line))
         (review_articles s) lines.
Proof.
  exists (map (fun a =>
                 u "PMID-" ++ pmid a ++ u " # " ++ firstn 80 (title a)
                   ++ (if 80 <? length (title a) then u "..." else []))
              (review_articles s)).
  split.
  - assert (D : forall articles,
               flat_map (export_line (u "pmid_with_title")) articles
               = unlines
                   (map (fun a =>
                           u "PMID-" ++ pmid a ++ u " # "
                             ++ firstn 80 (title a)
                             ++ (if 80 <? length (title a) then u "..."
                                 else []))
                        articles)).
    { induction articles as [|a l IH]; [reflexivity|].
      cbn [flat_map map]; unfold unlines in *; cbn [flat_map]; rewrite IH.
      f_equal; unfold export_line.
      change (str_eqb (u "pmid_with_title") (u "pmid")) with false.
      change (str_eqb (u "pmid_with_title") (u "pmid_with_title"))
        with true.
      cbv iota; rewrite <- !app_assoc; reflexivity. }
    unfold export_for_webapp, bind, get_review_articles, write_file, print.
    cbn [review_articles stdout disk].
    unfold export_text.
    rewrite D, export_header_lines, <- unlines_app, <- app_assoc.
    reflexivity.
  - induction (review_articles s) as [|a l IH]; [constructor|].
    cbn [map]; constructor; [|exact IH].
    exists (firstn 80 (title a)
              ++ (if 80 <? length (title a) then u "..." else [])).
    split; [reflexivity|].
    destruct (Nat.ltb_spec 80 (length (title a))) as [K|K].
    + split; [lia|]; split; [|split].
      * intros _; split; [reflexivity|].
        rewrite length_app, length_firstn.
        change (length (u "...")) with 3; lia.
      * reflexivity.
      * intros P T.
        apply one_line_app; [apply one_line_u; reflexivity|].
        apply one_line_app; [exact P|].
        apply one_line_app; [apply one_line_u; reflexivity|].
        apply one_line_app; [apply one_line_firstn; exact T|].
        apply one_line_u; reflexivity.
    + split; [|split; [lia|split; [lia|]]].
      * intros _; rewrite app_nil_r; apply firstn_all2; exact K.
      * intros P T.
        apply one_line_app; [apply one_line_u; reflexivity|].
        apply one_line_app; [exact P|].
        apply one_line_app; [apply one_line_u; reflexivity|].
        apply one_line_app; [apply one_line_firstn; exact T|].
        intros [].
Qed.

(** C10.  With a format that is none of [pmid], [pmid_with_title] and
    [title], the export raises nothing, writes the file with the header,
    holding the number of records of the list, and no line for any record,
    and prints its message. *)
Theorem unknown_format_writes_header_only
    (filename format_type : str) (s : state) :
  format_type <> u "pmid" ->
  format_type <> u "pmid_with_title" ->
  format_type <> u "title" ->
  export_for_webapp filename format_type s =
    Ok (tt, {| review_articles := review_articles s;
               stdout := stdout s
                 ++ [u "Exported " ++ str_of_nat (length (review_articles s))
                       ++ u " review articles to " ++ filename];
               disk :=
                 (filename,
                  unlines
                    [u "# Review articles exclusion list";
                     u "# Generated automatically from MEDLINE publication types";
                     u "# Total reviews found: "
                       ++ str_of_nat (length (review_articles s));
                     u "# Format: PMID per line";
                     []])
                   :: disk s |}).
Proof.
  intros H1 H2 H3.
  assert (E : forall articles,
             flat_map (export_line format_type) articles = []).
  { induction articles as [|a l IH]; [reflexivity|].
    cbn [flat_map]; rewrite IH; unfold export_line.
    rewrite (str_eqb_neq _ _ H1), (str_eqb_neq _ _ H2), (str_eqb_neq _ _ H3).
    reflexivity. }
  unfold export_for_webapp, bind, get_review_articles, write_file, print.
  cbn [review_articles stdout disk].
  unfold export_text; rewrite E, app_nil_r, export_header_lines.
  reflexivity.
Qed.

Lemma unknown_format_writes_header_only_witness :
  exists s',
    export_for_webapp (u "out.txt") (u "json")
      {| review_articles :=
           [{| pmid := u "12345"; title := u "A Study of Widgets";
               publication_types := [u "Review"] |}];
         stdout := []; disk := [] |} = Ok (tt, s')
    /\ disk s'
       = [(u "out.txt",
           unlines
             [u "# Review articles exclusion list";
              u "# Generated automatically from MEDLINE publication types";
              u "# Total reviews found: 1";
              u "# Format: PMID per line";
              []])].
Proof.
  eexists; split.
  - apply (unknown_format_writes_header_only (u "out.txt") (u "json"));
      discriminate.
  - reflexivity.
Defined.

Lemma title_comment_truncated_witness :
  exists s',
    export_for_webapp (u "out.txt") (u "pmid_with_title")
      {| review_articles :=
           [{| pmid := u "7"; title := repeat 65%N 90;
               publication_types := [u "Review"] |}];
         stdout := []; disk := [] |} = Ok (tt, s')
    /\ disk s'
       = [(u "out.txt",
           unlines (header_lines 1
                      ++ [[]; u "PMID-7 # " ++ repeat 65%N 80 ++ u "..."]))].
Proof.
  destruct (title_comment_truncated (u "out.txt")
              {| review_articles :=
                   [{| pmid := u "7"; title := repeat 65%N 90;
                       publication_types := [u "Review"] |}];
                 stdout := []; disk := [] |}) as [lines [E F]].
  eexists; split; [exact E|].
  cbn [disk review_articles length] in *.
  inversion F as [|a line l ls [shown [L [_ [_ [K _]]]]] F']; subst.
  inversion F'; subst.
  rewrite (K eq_refl); reflexivity.
Defined.

(** ** Records hold no newline *)

Lemma scan_line_one_line (st st' : locals) (line : str) :
  one_line line ->
  one_line (l_pmid st) /\ one_line (l_title st)
  /\ one_line (current_value st) ->
  scan_line st line = Ok st' ->
  one_line (l_pmid st') /\ one_line (l_title st')
  /\ one_line (current_value st').
Proof.
  intros L [I1 [I2 I3]] E.
  destruct (scan_line_cases st line)
    as [H|[[_ H]|[[_ [_ H]]|[[_ [_ [_ [H F]]]]|[H1 [H2 [H3 H4]]]]]]].
  - rewrite (scan_line_PMID st line H) in E; apply Ok_inj in E; subst st'.
    cbn [l_pmid l_title current_value]; repeat split; auto.
    apply one_line_strip, one_line_skipn, L.
  - rewrite (scan_line_TI st line H) in E; apply Ok_inj in E; subst st'.
    cbn [l_pmid l_title current_value]; repeat split; auto.
    apply one_line_strip, one_line_skipn, L.
  - rewrite (scan_line_PT st line H) in E; apply Ok_inj in E; subst st'.
    cbn [l_pmid l_title current_value]; repeat split; auto.
  - rewrite (scan_line_continuation st line H F) in E.
    apply Ok_inj in E; subst st'.
    cbn [l_pmid l_title current_value]; repeat split; auto.
    apply one_line_app; [exact I3|].
    apply one_line_app; [apply one_line_u; reflexivity|].
    apply one_line_strip, L.
  - rewrite (scan_line_other st line H1 H2 H3 H4) in E.
    apply Ok_inj in E; subst st'.
    cbn [l_pmid l_title current_value]; repeat split; auto.
    + destruct (in_title (current_field st)); assumption.
    + intros [].
Qed.

Lemma scan_lines_one_line (lines : list str) :
  Forall one_line lines ->
  forall st st',
    one_line (l_pmid st) /\ one_line (l_title st)
    /\ one_line (current_value st) ->
    scan_lines st lines = Ok st' ->
    one_line (l_pmid st') /\ one_line (l_title st')
    /\ one_line (current_value st').
Proof.
  induction 1 as [|line lines L Ls IH]; intros st st' I E.
  - apply Ok_inj in E; subst st'; exact I.
  - cbn [scan_lines] in E.
    destruct (scan_line st line) as [st1|e] eqn:E1; [|discriminate].
    cbn [res_bind] in E.
    apply (IH st1 st' (scan_line_one_line st st1 line L I E1) E).
Qed.

Lemma extract_one_line (block : str) (info : article) :
  _extract_if_review block = Ok (Some info) ->
  one_line (pmid info) /\ one_line (title info).
Proof.
  intros X.
  destruct (scan_block_total block) as [st E].
  rewrite (extract_of_scan block st E) in X.
  destruct (_ && _); [|discriminate].
  apply Ok_inj in X; injection X as <-.
  unfold scan_block in E.
  destruct (scan_lines locals0 (split nl (strip block))) as [st1|e] eqn:E1;
    [|discriminate].
  cbn [res_bind] in E; apply Ok_inj in E; subst st.
  assert (L : Forall one_line (split nl (strip block))).
  { apply Forall_forall; intros l; apply split_one_line. }
  assert (I0 : one_line (l_pmid locals0) /\ one_line (l_title locals0)
               /\ one_line (current_value locals0)).
  { repeat split; intros []. }
  destruct (scan_lines_one_line _ L locals0 st1 I0 E1) as [I1 [I2 I3]].
  cbn [record_of pmid title flush_last l_pmid l_title].
  split; [exact I1|].
  destruct (in_title (current_field st1)); assumption.
Qed.

Lemma block_reviews_one_line (block : str) :
  Forall (fun a => one_line (pmid a) /\ one_line (title a))
         (block_reviews block).
Proof.
  unfold block_reviews.
  destruct (_extract_if_review block) as [[info|]|e] eqn:E; constructor.
  - exact (extract_one_line block info E).
  - constructor.
Qed.

Lemma file_reviews_one_line (content : str) :
  Forall (fun a => one_line (pmid a) /\ one_line (title a))
         (file_reviews content).
Proof.
  unfold file_reviews.
  induction (re_split_blank_lines content) as [|b bs IH]; [constructor|].
  cbn [flat_map]; apply Forall_app; split;
    [apply block_reviews_one_line | exact IH].
Qed.

Lemma all_reviews_one_line (contents : list str) :
  Forall (fun a => one_line (pmid a) /\ one_line (title a))
         (flat_map file_reviews contents).
Proof.
  induction contents as [|c cs IH]; [constructor|].
  cbn [flat_map]; apply Forall_app; split;
    [apply file_reviews_one_line | exact IH].
Qed.

(** ** Runs *)

Lemma parse_block_run (block : str) (s : state) :
  parse_block block s =
    Ok (tt, {| review_articles := review_articles s ++ block_reviews block;
               stdout := stdout s; disk := disk s |}).
Proof.
  unfold block_reviews.
  destruct (extract_total block) as [[info|] E]; rewrite E.
  - apply parse_block_some; exact E.
  - rewrite (parse_block_none block s E), app_nil_r.
    destruct s; reflexivity.
Qed.

Lemma parse_blocks_run (blocks : list str) :
  forall s,
    for_each blocks parse_block s =
      Ok (tt, {| review_articles :=
                   review_articles s ++ flat_map block_reviews blocks;
                 stdout := stdout s; disk := disk s |}).
Proof.
  induction blocks as [|b bs IH]; intros s.
  - cbn [for_each flat_map]; rewrite app_nil_r; destruct s; reflexivity.
  - cbn [for_each flat_map]; unfold bind at 1.
    rewrite parse_block_run, IH.
    cbn [review_articles stdout disk]; rewrite app_assoc; reflexivity.
Qed.

Lemma parse_medline_file_run (filepath content : str) (s : state) :
  lookup filepath (disk s) = Some content ->
  parse_medline_file filepath s =
    Ok (tt,
        {| review_articles := review_articles s ++ file_reviews content;
           stdout :=
             stdout s
               ++ [u "Parsing file: " ++ filepath;
                   u "Found "
                     ++ str_of_nat (length (review_articles s)
                                    + length (file_reviews content))
                     ++ u " review articles in " ++ filepath];
           disk := disk s |}).
Proof.
  intros L.
  unfold parse_medline_file, bind at 1, print at 1.
  unfold bind at 1, read_file; cbn [disk]; rewrite L.
  unfold bind at 1; rewrite parse_blocks_run.
  unfold bind, get_review_articles, print.
  cbn [review_articles stdout disk].
  rewrite length_app, <- app_assoc; reflexivity.
Qed.

Lemma main_file_missing (filepath : str) (s : state) :
  lookup filepath (disk s) = None ->
  main_file filepath s =
    Ok (tt, printed s [u "Warning: File " ++ filepath ++ u " not found"]).
Proof.
  intros L; unfold main_file, bind, path_exists; rewrite L; reflexivity.
Qed.

Lemma main_file_existing (filepath content : str) (s : state) :
  lookup filepath (disk s) = Some content ->
  main_file filepath s = parse_medline_file filepath s.
Proof.
  intros L; unfold main_file, bind, path_exists; rewrite L; reflexivity.
Qed.

Lemma main_loop_run (files : list str) :
  forall s,
    for_each files main_file s =
      Ok (tt,
          {| review_articles :=
               review_articles s
                 ++ flat_map file_reviews (existing (disk s) files);
             stdout :=
               stdout s
                 ++ loop_prints (disk s) (length (review_articles s)) files;
             disk := disk s |}).
Proof.
  induction files as [|path files IH]; intros s.
  - cbn [for_each existing flat_map loop_prints].
    rewrite !app_nil_r; destruct s; reflexivity.
  - cbn [for_each]; unfold bind at 1.
    unfold existing; cbn [flat_map loop_prints]; fold (existing (disk s) files).
    destruct (lookup path (disk s)) as [content|] eqn:L.
    + rewrite (main_file_existing path content s L).
      rewrite (parse_medline_file_run path content s L), IH.
      cbn [review_articles stdout disk].
      rewrite flat_map_app, length_app, <- !app_assoc.
      cbn [flat_map app]; rewrite app_nil_r; reflexivity.
    + rewrite (main_file_missing path s L), IH.
      unfold printed; cbn [review_articles stdout disk app].
      rewrite <- app_assoc; reflexivity.
Qed.

Lemma printed_printed (s : state) (o1 o2 : list str) :
  printed (printed s o1) o2 = printed s (o1 ++ o2).
Proof.
  unfold printed; cbn [review_articles stdout disk].
  rewrite app_assoc; reflexivity.
Qed.

Lemma only_prints_print (x : str) : only_prints (print x).
Proof. intros s; exists [x]; reflexivity. Qed.

Lemma only_prints_ret : only_prints (ret tt).
Proof.
  intros s; exists []; unfold ret, printed.
  rewrite app_nil_r; destruct s; reflexivity.
Qed.

Lemma only_prints_seq (m k : M unit) :
  only_prints m -> only_prints k -> only_prints (m ;; k).
Proof.
  intros Hm Hk s.
  destruct (Hm s) as [o1 E1]; destruct (Hk (printed s o1)) as [o2 E2].
  exists (o1 ++ o2); unfold bind; rewrite E1, E2, printed_printed.
  reflexivity.
Qed.

Lemma only_prints_for_each {A} (l : list A) (body : A -> M unit) :
  (forall x, only_prints (body x)) -> only_prints (for_each l body).
Proof.
  intros H; induction l as [|x l IH]; cbn [for_each].
  - apply only_prints_ret.
  - apply only_prints_seq; [apply H | exact IH].
Qed.


Section RunFacts.

Variable lower : str -> str.

Lemma show_statistics_prints : only_prints (show_statistics lower).
Proof.
  intros s; unfold show_statistics, bind at 1, get_review_articles.
  destruct (review_articles s) as [|a l] eqn:R.
  - apply only_prints_print.
  - revert s R; generalize (a :: l); intros articles s _.
    repeat (apply only_prints_seq || apply only_prints_print
            || apply only_prints_for_each || intros [? ?]).
    + destruct (existsb _ _);
        [apply only_prints_print | apply only_prints_ret].
Qed.

(** What a run of [main] leaves. *)
Lemma main_run (files : list str) (output format : str) (s : state) :
  exists stats,
    main lower files output format s =
      Ok (tt,
          let articles := flat_map file_reviews (existing (disk s) files) in
          let out := stdout s ++ loop_prints (disk s) 0 files ++ stats in
          match articles with
          | [] =>
              {| review_articles := [];
                 stdout := out ++ [nl :: u "No review articles found to export."];
                 disk := disk s |}
          | _ :: _ =>
              {| review_articles := articles;
                 stdout :=
                   out ++ [u "Exported " ++ str_of_nat (length articles)
                             ++ u " review articles to " ++ output;
                           nl :: u "Use this file in your web app as the 'Review Articles' exclusion list to get the same 136 reviews."];
                 disk :=
                   (output, export_text format articles) :: disk s |}
          end).
Proof.
  unfold main, bind at 1, ReviewExtractor__init__, set_review_articles.
  unfold bind at 1; rewrite main_loop_run.
  cbn [review_articles stdout disk length app].
  match goal with |- context [bind (show_statistics lower) _ ?s1] =>
    destruct (show_statistics_prints s1) as [stats E] end.
  exists stats; unfold bind at 1; rewrite E.
  unfold printed; cbn [review_articles stdout disk].
  unfold bind at 1, get_review_articles; cbn [review_articles].
  destruct (flat_map file_reviews (existing (disk s) files)) as [|a l].
  - unfold print; cbn [review_articles stdout disk].
    rewrite <- !app_assoc; reflexivity.
  - unfold bind, export_for_webapp, bind, get_review_articles, write_file,
      print; cbn [review_articles stdout disk].
    rewrite <- !app_assoc; reflexivity.
Qed.

End RunFacts.

(** ** The exported file *)

Lemma data_lines (format_type : str) (articles : list article) :
  In format_type [u "pmid"; u "pmid_with_title"; u "title"] ->
  Forall (fun a => one_line (pmid a) /\ one_line (title a)) articles ->
  exists data,
    flat_map (export_line format_type) articles = unlines data
    /\ Forall2 (fun a l => is_data_line format_type a l /\ one_line l)
               articles data.
Proof.
  intros F; induction 1 as [|a l [P T] _ [data [E D]]].
  - exists []; split; [reflexivity | constructor].
  - cbn [flat_map]; rewrite E.
    destruct F as [<-|[<-|[<-|[]]]].
    + exists (pmid a :: data); split; [reflexivity|].
      constructor; [|exact D].
      split; [|exact P].
      repeat split; intros; try reflexivity; discriminate.
    + exists ((u "PMID-" ++ pmid a ++ u " # " ++ firstn 80 (title a)
                ++ (if 80 <? length (title a) then u "..." else []))
              :: data).
      split.
      * unfold unlines at 2; cbn [flat_map]; fold (unlines data).
        unfold export_line.
        change (str_eqb (u "pmid_with_title") (u "pmid")) with false.
        change (str_eqb (u "pmid_with_title") (u "pmid_with_title"))
          with true.
        cbv iota; rewrite <- !app_assoc; reflexivity.
      * constructor; [|exact D].
        split; [repeat split; intros; try reflexivity; discriminate|].
        apply one_line_app; [apply one_line_u; reflexivity|].
        apply one_line_app; [exact P|].
        apply one_line_app; [apply one_line_u; reflexivity|].
        apply one_line_app; [apply one_line_firstn; exact T|].
        destruct (80 <? length (title a));
          [apply one_line_u; reflexivity | intros []].
    + exists (title a :: data); split; [reflexivity|].
      constructor; [|exact D].
      split; [|exact T].
      repeat split; intros; try reflexivity; discriminate.
Qed.

(** C4, as the code has it.  A run that exports, in one of the three
    formats, leaves a file made of four header lines, each beginning with
    '#' and one of them holding the number of retained records, then one
    empty line, then one line per retained record, in the order of the
    list, and nothing else. *)
Theorem export_file_layout
    (lower : str -> str) (files : list str) (output format : str)
    (s : state) :
  In format [u "pmid"; u "pmid_with_title"; u "title"] ->
  exists s',
    main lower files output format s = Ok (tt, s')
    /\ (review_articles s' <> [] ->
        exists data,
          disk s'
          = (output,
             unlines (header_lines (length (review_articles s'))
                        ++ [[]] ++ data)) :: disk s
          /\ length (header_lines (length (review_articles s'))) = 4
          /\ Forall (fun h => startswith h (u "#") = true /\ one_line h)
                    (header_lines (length (review_articles s')))
          /\ In (u "# Total reviews found: "
                   ++ str_of_nat (length (review_articles s')))
                (header_lines (length (review_articles s')))
          /\ Forall2 (fun a l => is_data_line format a l /\ one_line l)
                     (review_articles s') data).
Proof.
  intros F.
  destruct (main_run lower files output format s) as [stats E].
  eexists; split; [exact E|].
  pose proof (all_reviews_one_line (existing (disk s) files)) as W.
  cbv zeta.
  destruct (flat_map file_reviews (existing (disk s) files)) as [|a l];
    cbn [review_articles disk]; [congruence|].
  intros _.
  destruct (data_lines format (a :: l) F W) as [data [D1 D2]].
  exists data; split; [|split; [|split; [|split]]].
  - unfold export_text.
    rewrite D1, export_header_lines, <- unlines_app, <- app_assoc.
    reflexivity.
  - reflexivity.
  - apply header_lines_one_line.
  - right; right; left; reflexivity.
  - exact D2.
Qed.

Lemma export_file_layout_witness :
  exists s',
    main (fun x => x) [u "in.txt"] (u "out.txt") (u "pmid")
      {| review_articles := []; stdout := [];
         disk := [(u "in.txt", example_block)] |} = Ok (tt, s')
    /\ lookup (u "out.txt") (disk s')
       = Some (unlines (header_lines 1 ++ [[]; u "12345"])).
Proof.
  destruct (export_file_layout (fun x => x) [u "in.txt"] (u "out.txt")
              (u "pmid")
              {| review_articles := []; stdout := [];
                 disk := [(u "in.txt", example_block)] |}
              (or_introl eq_refl)) as [s' [E _]].
  exists s'; split; [exact E|].
  assert (K : Ok (tt, s')
              = main (fun x => x) [u "in.txt"] (u "out.txt") (u "pmid")
                  {| review_articles := []; stdout := [];
                     disk := [(u "in.txt", example_block)] |})
    by (symmetry; exact E).
  vm_compute in K; apply Ok_inj in K.
  injection K as ->; vm_compute; reflexivity.
Defined.

(** C4 as stated fails: the file of the run below is not its four header
    lines followed by the line of its one record; an empty line stands
    between them. *)
Lemma export_file_layout_counterexample :
  exists s',
    main (fun x => x) [u "in.txt"] (u "out.txt") (u "pmid")
      {| review_articles := []; stdout := [];
         disk := [(u "in.txt", example_block)] |} = Ok (tt, s')
    /\ review_articles s'
       = [{| pmid := u "12345"; title := u "A Study of Widgets";
             publication_types := [u "Review"] |}]
    /\ lookup (u "out.txt") (disk s')
       = Some (unlines (header_lines 1 ++ [[]; u "12345"]))
    /\ unlines (header_lines 1 ++ [[]; u "12345"])
       <> unlines (header_lines 1 ++ [u "12345"]).
Proof.
  eexists; split; [vm_compute; reflexivity|].
  split; [reflexivity|]; split; [reflexivity|].
  vm_compute; discriminate.
Qed.

(** ** Empty results and the progress message *)






(** ** White space around a block *)

Lemma lstrip_blank (w : str) : blank w = true -> lstrip w = [].
Proof.
  induction w as [|c w IH]; [reflexivity|].
  cbn [blank forallb lstrip]; intros H.
  apply andb_true_iff in H; destruct H as [-> H]; apply IH, H.
Qed.

Lemma lstrip_app (b w : str) :
  lstrip (b ++ w) =
    match lstrip b with
    | [] => lstrip w
    | _ :: _ => lstrip b ++ w
    end.
Proof.
  induction b as [|c b IH]; cbn [app lstrip].
  - destruct (lstrip w); reflexivity.
  - destruct (is_space c); [exact IH | reflexivity].
Qed.

Lemma blank_rev (w : str) : blank (rev w) = blank w.
Proof.
  unfold blank; induction w as [|c w IH]; [reflexivity|].
  cbn [rev forallb]; rewrite forallb_app, IH; cbn [forallb].
  rewrite andb_true_r, andb_comm; reflexivity.
Qed.

Lemma rstrip_app_blank (b w : str) :
  blank w = true -> rstrip (b ++ w) = rstrip b.
Proof.
  intros H; unfold rstrip; rewrite rev_app_distr, lstrip_app.
  rewrite (lstrip_blank (rev w)); [reflexivity|].
  rewrite blank_rev; exact H.
Qed.

Lemma strip_app_blank (w1 b w2 : str) :
  blank w1 = true -> blank w2 = true -> strip (w1 ++ b ++ w2) = strip b.
Proof.
  intros H1 H2; unfold strip.
  rewrite lstrip_app, (lstrip_blank w1 H1), lstrip_app.
  destruct (lstrip b) as [|c t] eqn:E.
  - rewrite (lstrip_blank w2 H2); reflexivity.
  - apply rstrip_app_blank; exact H2.
Qed.

(** X5.  White space before and after a block changes nothing of what is
    extracted from it. *)
Theorem surrounding_space_ignored (w1 block w2 : str) :
  blank w1 = true ->
  blank w2 = true ->
  scan_block (w1 ++ block ++ w2) = scan_block block
  /\ _extract_if_review (w1 ++ block ++ w2) = _extract_if_review block.
Proof.
  intros H1 H2.
  unfold _extract_if_review, scan_block.
  rewrite (strip_app_blank w1 block w2 H1 H2); split; reflexivity.
Qed.

Lemma surrounding_space_ignored_witness :
  _extract_if_review ([nl; 32%N] ++ example_block ++ [32%N; nl; 9%N])
  = _extract_if_review example_block.
Proof.
  exact (proj2 (surrounding_space_ignored [nl; 32%N] example_block
                  [32%N; nl; 9%N] eq_refl eq_refl)).
Defined.

(** ** Trimmed fields *)

Lemma lstrip_idem (s : str) : lstrip (lstrip s) = lstrip s.
Proof.
  induction s as [|c s IH]; [reflexivity|].
  cbn [lstrip]; destruct (is_space c) eqn:E; [exact IH|].
  cbn [lstrip]; rewrite E; reflexivity.
Qed.

Lemma rstrip_cons (c : char) (t : str) :
  is_space c = false -> rstrip (c :: t) = c :: rstrip t.
Proof.
  intros E; unfold rstrip; cbn [rev]; rewrite lstrip_app.
  destruct (lstrip (rev t)) as [|d r].
  - cbn [lstrip]; rewrite E; reflexivity.
  - rewrite rev_app_distr; reflexivity.
Qed.

Lemma strip_idem (s : str) : strip (strip s) = strip s.
Proof.
  unfold strip.
  assert (R : forall x, rstrip (rstrip x) = rstrip x).
  { intros x; unfold rstrip; rewrite rev_involutive, lstrip_idem.
    reflexivity. }
  assert (L : forall t, lstrip t = t -> lstrip (rstrip t) = rstrip t).
  { intros [|c t] E; [reflexivity|].
    cbn [lstrip] in E; destruct (is_space c) eqn:K.
    - exfalso.
      assert (X : length (lstrip t) <= length t).
      { clear; induction t as [|d t IH]; cbn [lstrip length]; [lia|].
        destruct (is_space d); cbn [length]; lia. }
      rewrite E in X; cbn [length] in X; lia.
    - rewrite (rstrip_cons c t K); cbn [lstrip]; rewrite K; reflexivity. }
  rewrite (L (lstrip s) (lstrip_idem s)); apply R.
Qed.

(** ** The scan raises nothing *)

Lemma split1_getitem (line : str) :
  (In dash line -> exists rest, getitem (split1 dash line) 1 = Ok rest)
  /\ (~ In dash line -> getitem (split1 dash line) 1 = Raise IndexError)
  /\ exists p ps, split1 dash line = p :: ps.
Proof.
  induction line as [|c line [IH1 [IH2 [p [ps IH3]]]]].
  - split; [intros []|]; split; [reflexivity | exists [], []; reflexivity].
  - cbn [split1]; destruct (char_eqb c dash) eqn:E.
    + split; [intros _; exists line; reflexivity|].
      split; [|exists [], [line]; reflexivity].
      intros K; exfalso; apply K; left.
      apply char_eqb_eq in E; auto.
    + rewrite IH3 in *; cbn [cons_first].
      split; [|split; [|exists (c :: p), ps; reflexivity]].
      * intros [K|K]; [|exact (IH1 K)].
        subst c; unfold char_eqb in E; rewrite N.eqb_refl in E.
        discriminate.
      * intros K; apply IH2; intros X; apply K; right; exact X.
Qed.

(** X1.  Taking item 1 of [line.split('-', 1)] raises [IndexError] exactly
    on a line without '-'; the scan only does so on lines that begin with
    a field prefix, which holds a '-', so that no line and no block makes
    the extraction raise. *)
Theorem extraction_never_raises (block : str) :
  (forall line,
     getitem (split1 dash line) 1 = Raise IndexError <-> ~ In dash line)
  /\ (forall st line e, scan_line st line <> Raise e)
  /\ (forall e, scan_block block <> Raise e)
  /\ (forall e, _extract_if_review block <> Raise e).
Proof.
  split; [|split; [|split]].
  - intros line; destruct (split1_getitem line) as [H1 [H2 _]].
    split; [|exact H2].
    intros R K; destruct (H1 K) as [rest X]; congruence.
  - intros st line e; destruct (scan_line_total st line) as [st' E].
    congruence.
  - intros e; destruct (scan_block_total block) as [st E]; congruence.
  - intros e; destruct (extract_total block) as [o E]; congruence.
Qed.

(** ** Publication types and titles of a block *)

Lemma scan_lines_publication_types (lines : list str) :
  forall st, exists st',
    scan_lines st lines = Ok st'
    /\ l_publication_types st' =
         l_publication_types st
           ++ map (fun l => strip (skipn 5 l))
                  (filter (fun l => startswith l (u "PT  -")) lines).
Proof.
  induction lines as [|l lines IH]; intros st.
  - exists st; split; [reflexivity|].
    cbn [filter map]; rewrite app_nil_r; reflexivity.
  - cbn [scan_lines filter].
    destruct (scan_line_cases st l)
      as [H|[[_ H]|[[_ [_ H]]|[[_ [_ [H3 [H F]]]]|[H1 [H2 [H3 H4]]]]]]].
    + rewrite (scan_line_PMID st l H).
      destruct (startswith_prefix _ _ H) as [t ->].
      change (startswith (u "PMID-" ++ t) (u "PT  -")) with false.
      cbn [res_bind].
      match goal with |- context [scan_lines ?s lines] =>
        destruct (IH s) as [st' [E T]] end.
      exists st'; split; [exact E | exact T].
    + rewrite (scan_line_TI st l H).
      destruct (startswith_prefix _ _ H) as [t ->].
      change (startswith (u "TI  -" ++ t) (u "PT  -")) with false.
      cbn [res_bind].
      match goal with |- context [scan_lines ?s lines] =>
        destruct (IH s) as [st' [E T]] end.
      exists st'; split; [exact E | exact T].
    + rewrite (scan_line_PT st l H), H; cbn [res_bind map].
      match goal with |- context [scan_lines ?s lines] =>
        destruct (IH s) as [st' [E T]] end.
      exists st'; split; [exact E|].
      rewrite T; cbn [l_publication_types].
      rewrite <- app_assoc; reflexivity.
    + rewrite (scan_line_continuation st l H F), H3; cbn [res_bind].
      match goal with |- context [scan_lines ?s lines] =>
        destruct (IH s) as [st' [E T]] end.
      exists st'; split; [exact E | exact T].
    + rewrite (scan_line_other st l H1 H2 H3 H4), H3; cbn [res_bind].
      match goal with |- context [scan_lines ?s lines] =>
        destruct (IH s) as [st' [E T]] end.
      exists st'; split; [exact E | exact T].
Qed.

(** X3.  The publication types of a block are the trimmed texts after the
    prefix of its [PT  -] lines, all of them, in the order of the lines and
    with their repetitions. *)
Theorem publication_types_in_order (block : str) :
  exists st,
    scan_block block = Ok st
    /\ l_publication_types st
       = map (fun l => strip (skipn 5 l))
             (filter (fun l => startswith l (u "PT  -"))
                     (split nl (strip block)))
    /\ forall info,
         _extract_if_review block = Ok (Some info) ->
         publication_types info
         = map (fun l => strip (skipn 5 l))
               (filter (fun l => startswith l (u "PT  -"))
                       (split nl (strip block))).
Proof.
  destruct (scan_lines_publication_types (split nl (strip block)) locals0)
    as [st [E T]].
  assert (B : scan_block block = Ok (flush_last st)).
  { unfold scan_block; rewrite E; reflexivity. }
  exists (flush_last st); split; [exact B|]; split; [exact T|].
  intros info X; rewrite (extract_of_scan block _ B) in X.
  destruct (_ && _); [|discriminate].
  apply Ok_inj in X; injection X as <-; exact T.
Qed.

(** X4.  A block without [TI  -] line has the empty title, whatever its
    indented lines. *)
Theorem no_title_line_empty_title (block : str) :
  Forall (fun l => startswith l (u "TI  -") = false)
         (split nl (strip block)) ->
  exists st,
    scan_block block = Ok st
    /\ l_title st = []
    /\ forall info,
         _extract_if_review block = Ok (Some info) -> title info = [].
Proof.
  intros F.
  destruct (scan_lines_no_title_line _ F locals0) as [st [E T]].
  assert (B : scan_block block = Ok (flush_last st)).
  { unfold scan_block; rewrite E; reflexivity. }
  exists (flush_last st); split; [exact B|]; split; [exact T|].
  intros info X; rewrite (extract_of_scan block _ B) in X.
  destruct (_ && _); [|discriminate].
  apply Ok_inj in X; injection X as <-; exact T.
Qed.

Lemma no_title_line_empty_title_witness :
  let block :=
    u "PMID- 9" ++ nl :: u "      stray" ++ nl :: u "PT  - Review" in
  exists st, scan_block block = Ok st /\ l_title st = [].
Proof.
  intros block.
  assert (L : split nl (strip block)
              = [u "PMID- 9"; u "      stray"; u "PT  - Review"])
    by (vm_compute; reflexivity).
  assert (F : Forall (fun l => startswith l (u "TI  -") = false)
                     (split nl (strip block))).
  { rewrite L; repeat constructor. }
  destruct (no_title_line_empty_title block F) as [st [E [T _]]].
  exists st; split; [exact E | exact T].
Defined.

(** ** What the list holds *)

Lemma scan_line_trimmed (st st' : locals) (line : str) :
  one_line line ->
  strip (l_pmid st) = l_pmid st
  /\ Forall (fun t => strip t = t /\ one_line t) (l_publication_types st) ->
  scan_line st line = Ok st' ->
  strip (l_pmid st') = l_pmid st'
  /\ Forall (fun t => strip t = t /\ one_line t) (l_publication_types st').
Proof.
  intros L [I1 I2] E.
  destruct (scan_line_cases st line)
    as [H|[[_ H]|[[_ [_ H]]|[[_ [_ [_ [H F]]]]|[H1 [H2 [H3 H4]]]]]]].
  - rewrite (scan_line_PMID st line H) in E; apply Ok_inj in E; subst st'.
    cbn [l_pmid l_publication_types]; split; [apply strip_idem | exact I2].
  - rewrite (scan_line_TI st line H) in E; apply Ok_inj in E; subst st'.
    split; assumption.
  - rewrite (scan_line_PT st line H) in E; apply Ok_inj in E; subst st'.
    cbn [l_pmid l_publication_types]; split; [exact I1|].
    apply Forall_app; split; [exact I2|].
    constructor; [|constructor].
    split; [apply strip_idem | apply one_line_strip, one_line_skipn, L].
  - rewrite (scan_line_continuation st line H F) in E.
    apply Ok_inj in E; subst st'; split; assumption.
  - rewrite (scan_line_other st line H1 H2 H3 H4) in E.
    apply Ok_inj in E; subst st'; split; assumption.
Qed.

Lemma scan_lines_trimmed (lines : list str) :
  Forall one_line lines ->
  forall st st',
    strip (l_pmid st) = l_pmid st
    /\ Forall (fun t => strip t = t /\ one_line t)
              (l_publication_types st) ->
    scan_lines st lines = Ok st' ->
    strip (l_pmid st') = l_pmid st'
    /\ Forall (fun t => strip t = t /\ one_line t)
              (l_publication_types st').
Proof.
  induction 1 as [|line lines L Ls IH]; intros st st' I E.
  - apply Ok_inj in E; subst st'; exact I.
  - cbn [scan_lines] in E.
    destruct (scan_line st line) as [st1|e] eqn:E1; [|discriminate].
    cbn [res_bind] in E.
    apply (IH st1 st' (scan_line_trimmed st st1 line L I E1) E).
Qed.

Lemma extract_clean (block : str) (info : article) :
  _extract_if_review block = Ok (Some info) -> clean info.
Proof.
  intros X.
  destruct (extract_one_line block info X) as [O1 O2].
  destruct (scan_block_total block) as [st E].
  rewrite (extract_of_scan block st E) in X.
  destruct (existsb _ review_keywords) eqn:R; [|discriminate].
  destruct (truthy (l_pmid st)) eqn:T; [|discriminate].
  apply Ok_inj in X; injection X as <-.
  unfold scan_block in E.
  destruct (scan_lines locals0 (split nl (strip block))) as [st1|e] eqn:E1;
    [|discriminate].
  cbn [res_bind] in E; apply Ok_inj in E; subst st.
  assert (L : Forall one_line (split nl (strip block))).
  { apply Forall_forall; intros l; apply split_one_line. }
  destruct (scan_lines_trimmed _ L locals0 st1
              (conj eq_refl (Forall_nil _)) E1) as [J1 J2].
  unfold clean; cbn [record_of pmid title publication_types] in *.
  cbn [flush_last l_pmid l_publication_types] in *.
  split; [apply truthy_true; exact T|].
  split; [exact J1|].
  split; [exact O1|].
  split; [exact O2|].
  split; [exact J2|].
  apply is_review_true; exact R.
Qed.

Lemma all_reviews_clean (contents : list str) :
  Forall clean (flat_map file_reviews contents).
Proof.
  induction contents as [|c cs IH]; [constructor|].
  cbn [flat_map]; apply Forall_app; split; [|exact IH].
  unfold file_reviews.
  induction (re_split_blank_lines c) as [|b bs IHb]; [constructor|].
  cbn [flat_map]; apply Forall_app; split; [|exact IHb].
  unfold block_reviews.
  destruct (_extract_if_review b) as [[info|]|e] eqn:X; constructor.
  - exact (extract_clean b info X).
  - constructor.
Qed.

(** X6.  Every record returned by the extraction, and so every record of
    the list at the end of a run, has a non-empty identifier without
    surrounding white space, an identifier and a title without newline,
    publication types that are trimmed and without newline, and one of the
    review keywords among its publication types. *)
Theorem retained_records_clean
    (lower : str -> str) (files : list str) (output format : str)
    (s : state) :
  (forall block info,
     _extract_if_review block = Ok (Some info) -> clean info)
  /\ exists s',
       main lower files output format s = Ok (tt, s')
       /\ Forall clean (review_articles s').
Proof.
  split; [exact extract_clean|].
  destruct (main_run lower files output format s) as [stats E].
  eexists; split; [exact E|].
  pose proof (all_reviews_clean (existing (disk s) files)) as W.
  cbv zeta.
  destruct (flat_map file_reviews (existing (disk s) files));
    cbn [review_articles]; [constructor | exact W].
Qed.

(** ** Blocks of a file *)

Lemma re_split_line (l : str) :
  one_line l ->
  forall cur s,
    re_split_from 0 cur (l ++ s) = re_split_from 0 (rev l ++ cur) s.
Proof.
  induction l as [|c l IH]; intros L cur s; [reflexivity|].
  assert (E : char_eqb c nl = false).
  { destruct (char_eqb c nl) eqn:K; [|reflexivity].
    apply char_eqb_eq in K; exfalso; apply L; left; auto. }
  cbn [app re_split_from]; rewrite E, IH.
  - cbn [rev]; rewrite <- app_assoc; reflexivity.
  - intros K; apply L; right; exact K.
Qed.

Lemma last_newline_nonblank (l s : str) :
  one_line l -> blank l = false -> last_newline (l ++ s) = None.
Proof.
  induction l as [|c l IH]; intros L B; [discriminate|].
  cbn [app last_newline]; cbn [blank forallb] in B.
  destruct (is_space c); [|reflexivity].
  rewrite IH; [| intros K; apply L; right; exact K | exact B].
  destruct (char_eqb c nl) eqn:K; [|reflexivity].
  apply char_eqb_eq in K; exfalso; apply L; left; auto.
Qed.

Lemma join_cons (sep l : str) (ls : list str) :
  ls <> [] -> join sep (l :: ls) = l ++ sep ++ join sep ls.
Proof. destruct ls; [congruence | reflexivity]. Qed.

Lemma re_split_block (ls : list str) :
  Forall (fun l => one_line l /\ blank l = false) ls ->
  ls <> [] ->
  forall cur s,
    re_split_from 0 cur (join [nl] ls ++ s)
    = re_split_from 0 (rev (join [nl] ls) ++ cur) s.
Proof.
  induction 1 as [|l ls [L B] F IH]; intros N cur s; [congruence|].
  destruct ls as [|l2 ls].
  - apply re_split_line; exact L.
  - rewrite join_cons by discriminate.
    rewrite <- !app_assoc, (re_split_line l L).
    remember (l2 :: ls) as rest eqn:R.
    cbn [app re_split_from].
    change (char_eqb nl nl) with true; cbv iota.
    assert (K : last_newline (join [nl] rest ++ s) = None).
    { subst rest; inversion F as [|? ? [L2 B2] F2]; subst.
      destruct ls as [|l3 ls].
      - apply last_newline_nonblank; assumption.
      - rewrite join_cons by discriminate.
        rewrite <- app_assoc; apply last_newline_nonblank; assumption. }
    rewrite K, IH by (subst rest; discriminate).
    rewrite !rev_app_distr; cbn [rev app].
    rewrite <- !app_assoc; reflexivity.
Qed.

Lemma flat_map_map {A B C} (f : B -> list C) (g : A -> B) (l : list A) :
  flat_map f (map g l) = flat_map (fun x => f (g x)) l.
Proof.
  induction l as [|x l IH]; [reflexivity|].
  cbn [map flat_map]; rewrite IH; reflexivity.
Qed.

(** X7.  A file made of blocks separated by one empty line, each block
    made of lines that hold no newline and are not white space only, is
    split into exactly these blocks, in order; the records of the file are
    the ones of its blocks. *)
Theorem blocks_recovered (blocks : list (list str)) :
  blocks <> [] ->
  Forall (fun ls =>
            ls <> []
            /\ Forall (fun l => one_line l /\ blank l = false) ls) blocks ->
  re_split_blank_lines (blocks_text blocks) = map (join [nl]) blocks
  /\ file_reviews (blocks_text blocks)
     = flat_map (fun ls => block_reviews (join [nl] ls)) blocks.
Proof.
  intros N F.
  assert (S : re_split_blank_lines (blocks_text blocks)
              = map (join [nl]) blocks).
  { unfold re_split_blank_lines, blocks_text.
    induction F as [|b bs [Nb Fb] F IH]; [congruence|].
    destruct bs as [|b2 bs].
    - cbn [map join].
      pose proof (re_split_block b Fb Nb [] []) as X.
      rewrite !app_nil_r in X; rewrite X.
      cbn [re_split_from]; rewrite rev_involutive; reflexivity.
    - remember (b2 :: bs) as rest eqn:R.
      cbn [map]; rewrite join_cons by (subst rest; discriminate).
      rewrite (re_split_block b Fb Nb).
      cbn [app re_split_from].
      change (char_eqb nl nl) with true; cbv iota.
      assert (K : last_newline (join [nl; nl] (map (join [nl]) rest))
                  = None).
      { subst rest; inversion F as [|? ? [N2 F2] F3]; subst.
        destruct b2 as [|l ls]; [congruence|].
        inversion F2 as [|? ? [L B] F4]; subst.
        assert (X : exists t,
                   join [nl; nl] (map (join [nl]) ((l :: ls) :: bs))
                   = l ++ t).
        { cbn [map]; destruct ls as [|l2 ls]; destruct bs as [|b3 bs].
          - exists []; cbn [map join]; rewrite app_nil_r; reflexivity.
          - rewrite join_cons by discriminate.
            eexists; cbn [join]; reflexivity.
          - rewrite (join_cons [nl] l) by discriminate.
            eexists; cbn [map join]; reflexivity.
          - rewrite join_cons by discriminate.
            rewrite (join_cons [nl] l) by discriminate.
            eexists; rewrite <- !app_assoc; reflexivity. }
        destruct X as [t ->]; apply last_newline_nonblank; assumption. }
      assert (K2 : last_newline (nl :: join [nl; nl] (map (join [nl]) rest))
                   = Some 1).
      { cbn [last_newline]; change (is_space nl) with true; cbv iota.
        rewrite K; reflexivity. }
      rewrite K2; cbn [re_split_from].
      rewrite app_nil_r, rev_involutive.
      rewrite IH by (subst rest; discriminate); reflexivity. }
  split; [exact S|].
  unfold file_reviews; rewrite S; apply flat_map_map.
Qed.

Lemma blocks_recovered_witness :
  re_split_blank_lines
    (blocks_text [[u "PMID- 1"; u "PT  - Review"];
                  [u "PMID- 2"; u "TI  - B"]])
  = [u "PMID- 1" ++ nl :: u "PT  - Review";
     u "PMID- 2" ++ nl :: u "TI  - B"].
Proof.
  refine (proj1 (blocks_recovered
                   [[u "PMID- 1"; u "PT  - Review"];
                    [u "PMID- 2"; u "TI  - B"]] _ _)).
  - discriminate.
  - repeat constructor; try discriminate;
      apply one_line_u; reflexivity.
Defined.

(** ** Lines *)

Lemma split_line (l s : str) :
  one_line l -> split nl (l ++ nl :: s) = l :: split nl s.
Proof.
  induction l as [|c l IH]; intros L.
  - reflexivity.
  - assert (E : char_eqb c nl = false).
    { destruct (char_eqb c nl) eqn:K; [|reflexivity].
      apply char_eqb_eq in K; exfalso; apply L; left; auto. }
    cbn [app split]; rewrite E, IH; [reflexivity|].
    intros K; apply L; right; exact K.
Qed.

Lemma split_one (l : str) : one_line l -> split nl l = [l].
Proof.
  induction l as [|c l IH]; intros L; [reflexivity|].
  assert (E : char_eqb c nl = false).
  { destruct (char_eqb c nl) eqn:K; [|reflexivity].
    apply char_eqb_eq in K; exfalso; apply L; left; auto. }
  cbn [split]; rewrite E, IH; [reflexivity|].
  intros K; apply L; right; exact K.
Qed.

Lemma split_unlines (ls : list str) :
  Forall one_line ls -> split nl (unlines ls) = ls ++ [[]].
Proof.
  induction 1 as [|l ls L F IH]; [reflexivity|].
  unfold unlines; cbn [flat_map]; fold (unlines ls).
  rewrite <- app_assoc; cbn [app].
  rewrite (split_line l (unlines ls) L), IH; reflexivity.
Qed.

(** X8.  Cutting at the newlines a block written as lines joined by
    newlines gives these lines back; when the block has no white space at
    its ends, they are the lines that are scanned, in order. *)
Theorem lines_round_trip (ls : list str) :
  ls <> [] ->
  Forall one_line ls ->
  split nl (join [nl] ls) = ls
  /\ (strip (join [nl] ls) = join [nl] ls ->
      scan_block (join [nl] ls)
      = let* st := scan_lines locals0 ls in Ok (flush_last st)).
Proof.
  intros N F.
  assert (S : split nl (join [nl] ls) = ls).
  { induction F as [|l ls L F IH]; [congruence|].
    destruct ls as [|l2 ls].
    - apply split_one; exact L.
    - rewrite join_cons by discriminate.
      cbn [app]; rewrite (split_line l _ L), IH by discriminate.
      reflexivity. }
  split; [exact S|].
  intros T; unfold scan_block; rewrite T, S; reflexivity.
Qed.

Lemma lines_round_trip_witness :
  split nl (join [nl] [u "PMID- 12345"; u "TI  - A Study of";
                       u "      Widgets"; u "PT  - Review"])
  = [u "PMID- 12345"; u "TI  - A Study of"; u "      Widgets";
     u "PT  - Review"].
Proof.
  refine (proj1 (lines_round_trip
                   [u "PMID- 12345"; u "TI  - A Study of";
                    u "      Widgets"; u "PT  - Review"] _ _)).
  - discriminate.
  - repeat constructor; apply one_line_u; reflexivity.
Defined.

(** X12.  Read back line by line, an export in [pmid] format is the four
    header lines, an empty line and the identifiers of the records, in the
    order of the list; in [title] format, the titles.  A last empty piece
    follows the final newline. *)
Theorem export_read_back (articles : list article) :
  Forall clean articles ->
  split nl (export_text (u "pmid") articles)
  = header_lines (length articles) ++ [[]] ++ map pmid articles ++ [[]]
  /\ split nl (export_text (u "title") articles)
     = header_lines (length articles) ++ [[]] ++ map title articles ++ [[]].
Proof.
  intros C.
  assert (P : flat_map (export_line (u "pmid")) articles
              = unlines (map pmid articles)).
  { clear C; induction articles as [|a l IH]; [reflexivity|].
    cbn [flat_map map]; rewrite IH; reflexivity. }
  assert (T : flat_map (export_line (u "title")) articles
              = unlines (map title articles)).
  { clear C P; induction articles as [|a l IH]; [reflexivity|].
    cbn [flat_map map]; rewrite IH; reflexivity. }
  assert (H : Forall one_line (header_lines (length articles) ++ [[]])).
  { apply Forall_app; split.
    - eapply Forall_impl; [|apply header_lines_one_line].
      intros h [_ O]; exact O.
    - constructor; [intros [] | constructor]. }
  unfold export_text; rewrite P, T, export_header_lines, <- !unlines_app.
  split.
  - rewrite split_unlines; [rewrite <- !app_assoc; reflexivity|].
    apply Forall_app; split; [exact H|].
    apply Forall_map; eapply Forall_impl; [|exact C].
    intros a K; apply K.
  - rewrite split_unlines; [rewrite <- !app_assoc; reflexivity|].
    apply Forall_app; split; [exact H|].
    apply Forall_map; eapply Forall_impl; [|exact C].
    intros a K; apply K.
Qed.

Lemma export_read_back_witness :
  skipn 5 (split nl (export_text (u "pmid")
                       [{| pmid := u "12345"; title := u "A Study of Widgets";
                           publication_types := [u "Review"] |}]))
  = [u "12345"; []].
Proof.
  assert (C : Forall clean
                [{| pmid := u "12345"; title := u "A Study of Widgets";
                    publication_types := [u "Review"] |}]).
  { constructor; [|constructor].
    unfold clean; cbn [pmid title publication_types].
    split; [discriminate|].
    split; [reflexivity|].
    split; [apply one_line_u; reflexivity|].
    split; [apply one_line_u; reflexivity|].
    split.
    - constructor; [|constructor].
      split; [reflexivity | apply one_line_u; reflexivity].
    - exists (u "Review"); split; left; reflexivity. }
  rewrite (proj1 (export_read_back _ C)); reflexivity.
Defined.

(** ** Files of white space *)

Lemma strip_blank (b : str) : blank b = true -> strip b = [].
Proof. intros B; unfold strip; rewrite (lstrip_blank b B); reflexivity. Qed.

Lemma re_split_blank (s : str) :
  blank s = true ->
  forall skip cur,
    blank cur = true ->
    Forall (fun b => blank b = true) (re_split_from skip cur s).
Proof.
  induction s as [|c s IH]; intros B skip cur K.
  - cbn [re_split_from]; constructor; [|constructor].
    rewrite blank_rev; exact K.
  - cbn [blank forallb] in B; apply andb_true_iff in B.
    destruct B as [Bc Bs].
    cbn [re_split_from]; destruct skip as [|k]; [|apply IH; assumption].
    assert (K' : blank (c :: cur) = true).
    { cbn [blank forallb]; rewrite Bc; exact K. }
    destruct (char_eqb c nl); [|apply IH; assumption].
    destruct (last_newline s); [|apply IH; assumption].
    constructor; [rewrite blank_rev; exact K | apply IH; auto].
Qed.

(** X15.  A file of white space only, the empty file included, adds no
    record: parsing it leaves the list as it was and reports its length. *)
Theorem blank_file_adds_nothing (filepath content : str) (s : state) :
  blank content = true ->
  lookup filepath (disk s) = Some content ->
  file_reviews content = []
  /\ parse_medline_file filepath s
     = Ok (tt, printed s
                 [u "Parsing file: " ++ filepath;
                  u "Found " ++ str_of_nat (length (review_articles s))
                    ++ u " review articles in " ++ filepath]).
Proof.
  intros B L.
  assert (E : file_reviews content = []).
  { unfold file_reviews, re_split_blank_lines.
    pose proof (re_split_blank content B 0 [] eq_refl) as F.
    induction F as [|b bs Hb F IH]; [reflexivity|].
    cbn [flat_map]; rewrite IH; unfold block_reviews.
    rewrite (extract_blank b (strip_blank b Hb)); reflexivity. }
  split; [exact E|].
  rewrite (parse_medline_file_run filepath content s L), E.
  cbn [length]; rewrite Nat.add_0_r, app_nil_r; reflexivity.
Qed.

Lemma blank_file_adds_nothing_witness :
  parse_medline_file (u "in.txt")
    {| review_articles := []; stdout := [];
       disk := [(u "in.txt", [nl; 32%N; nl])] |}
  = Ok (tt, {| review_articles := [];
               stdout := [u "Parsing file: in.txt";
                          u "Found 0 review articles in in.txt"];
               disk := [(u "in.txt", [nl; 32%N; nl])] |}).
Proof.
  exact (proj2 (blank_file_adds_nothing (u "in.txt") [nl; 32%N; nl]
                  {| review_articles := []; stdout := [];
                     disk := [(u "in.txt", [nl; 32%N; nl])] |}
                  eq_refl eq_refl)).
Defined.

(** ** Runs over several files *)

Lemma main_result
    (lower : str -> str) (files : list str) (output format : str)
    (s : state) :
  exists s',
    main lower files output format s = Ok (tt, s')
    /\ review_articles s'
       = flat_map file_reviews (existing (disk s) files)
    /\ disk s'
       = match flat_map file_reviews (existing (disk s) files) with
         | [] => disk s
         | a :: l => (output, export_text format (a :: l)) :: disk s
         end.
Proof.
  destruct (main_run lower files output format s) as [stats E].
  eexists; split; [exact E|].
  cbv zeta.
  destruct (flat_map file_reviews (existing (disk s) files));
    split; reflexivity.
Qed.

Lemma existing_app (d : list (str * str)) (f1 f2 : list str) :
  existing d (f1 ++ f2) = existing d f1 ++ existing d f2.
Proof. unfold existing; apply flat_map_app. Qed.

(** X9.  The list of a run over the paths [files1 ++ files2] is the list of
    a run over [files1] followed by the list of a run over [files2]:
    records accumulate across files, in order, and nothing is merged, so
    that a file given twice gives its records twice. *)
Theorem runs_accumulate
    (lower : str -> str) (files1 files2 : list str) (output format : str)
    (s : state) :
  exists s1 s2 s12,
    main lower files1 output format s = Ok (tt, s1)
    /\ main lower files2 output format s = Ok (tt, s2)
    /\ main lower (files1 ++ files2) output format s = Ok (tt, s12)
    /\ review_articles s12 = review_articles s1 ++ review_articles s2
    /\ (files2 = files1 ->
        review_articles s12 = review_articles s1 ++ review_articles s1).
Proof.
  destruct (main_result lower files1 output format s) as [s1 [E1 [R1 _]]].
  destruct (main_result lower files2 output format s) as [s2 [E2 [R2 _]]].
  destruct (main_result lower (files1 ++ files2) output format s)
    as [s12 [E12 [R12 _]]].
  exists s1, s2, s12; repeat split; try assumption.
  - rewrite R12, R1, R2, existing_app, flat_map_app; reflexivity.
  - intros ->; rewrite R12, R1, existing_app, flat_map_app; reflexivity.
Qed.

(** ** The statistics *)

Lemma emits_print (x : str) : emits (print x) [x].
Proof. intros s; reflexivity. Qed.

Lemma emits_ret : emits (ret tt) [].
Proof.
  intros s; unfold ret, printed; rewrite app_nil_r; destruct s; reflexivity.
Qed.

Lemma emits_seq (m k : M unit) (o1 o2 : list str) :
  emits m o1 -> emits k o2 -> emits (m ;; k) (o1 ++ o2).
Proof.
  intros Hm Hk s; unfold bind; rewrite Hm, Hk, printed_printed.
  reflexivity.
Qed.

Lemma emits_for_each {A} (l : list A) (body : A -> M unit)
    (f : A -> list str) :
  (forall x, emits (body x) (f x)) -> emits (for_each l body) (flat_map f l).
Proof.
  intros H; induction l as [|x l IH]; cbn [for_each flat_map].
  - apply emits_ret.
  - apply emits_seq; [apply H | exact IH].
Qed.

Lemma flat_map_filter {A B} (keep : A -> bool) (f : A -> B) (l : list A) :
  flat_map (fun x => if keep x then [f x] else []) l = map f (filter keep l).
Proof.
  induction l as [|x l IH]; [reflexivity|].
  cbn [flat_map filter]; destruct (keep x); cbn [map app]; rewrite IH;
    reflexivity.
Qed.

Lemma length_enumerate_from {A} (l : list A) (i : nat) :
  length (enumerate_from i l) = length l.
Proof.
  revert i; induction l as [|x l IH]; intros i; [reflexivity|].
  cbn [enumerate_from length]; rewrite IH; reflexivity.
Qed.

Lemma length_pairs {A} (f g : A -> str) (e : list A) :
  length (flat_map (fun x => [f x; g x]) e) = 2 * length e.
Proof.
  induction e as [|x e IH]; [reflexivity|].
  cbn [flat_map length app]; rewrite IH; lia.
Qed.

(** X11.  [show_statistics] raises nothing and only prints: the list and
    the files are as before.  On an empty list it prints the one line
    "No review articles found."; otherwise it prints the heading and the
    total, one line for each entry of the table of publication types whose
    lower-cased name holds "review" or "meta" (lower-cased), in the order
    of the table, and two lines for each of the first five records. *)
Theorem statistics_only_print (lower : str -> str) (s : state) :
  exists out,
    show_statistics lower s = Ok (tt, printed s out)
    /\ (review_articles s = [] -> out = [u "No review articles found."])
    /\ (review_articles s <> [] ->
        exists examples,
          out
          = [nl :: u "Review Articles Statistics:";
             u "Total review articles: "
               ++ str_of_nat (length (review_articles s));
             nl :: u "Publication types found:"]
            ++ map (fun p => u "  " ++ fst p ++ u ": " ++ str_of_nat (snd p))
                   (filter
                      (fun p =>
                         existsb
                           (fun keyword =>
                              contains (lower (fst p)) (lower keyword))
                           [u "review"; u "meta"])
                      (most_common
                         (Counter
                            (flat_map publication_types
                                      (review_articles s)))))
            ++ [nl :: u "First 5 review articles:"]
            ++ examples
          /\ length examples = 2 * Nat.min 5 (length (review_articles s))).
Proof.
  unfold show_statistics, bind at 1, get_review_articles.
  destruct (review_articles s) as [|a l] eqn:R.
  - exists [u "No review articles found."]; split; [reflexivity|].
    split; [reflexivity | congruence].
  - remember (a :: l) as articles eqn:A.
    eexists; split.
    + apply emits_seq; [apply emits_print|].
      apply emits_seq; [apply emits_print|].
      apply emits_seq; [apply emits_print|].
      apply emits_seq.
      * apply (emits_for_each _ _
                 (fun p =>
                    if existsb
                         (fun keyword =>
                            contains (lower (fst p)) (lower keyword))
                         [u "review"; u "meta"]
                    then [u "  " ++ fst p ++ u ": " ++ str_of_nat (snd p)]
                    else [])).
        intros [pub_type count]; cbn [fst snd].
        destruct (existsb _ _); [apply emits_print | apply emits_ret].
      * apply emits_seq; [apply emits_print|].
        apply (emits_for_each _ _
                 (fun x =>
                    [u "  " ++ str_of_nat (fst x + 1) ++ u ". PMID "
                       ++ pmid (snd x) ++ u ": " ++ firstn 60 (title (snd x))
                       ++ (if 60 <? length (title (snd x)) then u "..."
                           else []);
                     u "     Types: "
                       ++ join (u ", ") (publication_types (snd x))])).
        intros [i article]; cbn [fst snd].
        apply (emits_seq _ _ [_] [_]); apply emits_print.
    + split; [subst articles; discriminate|].
      intros _; eexists; split.
      * rewrite flat_map_filter; cbn [app]; reflexivity.
      * rewrite length_pairs, length_enumerate_from, length_firstn.
        reflexivity.
Qed.

(** ** The table of publication types *)

Lemma str_eqb_sym (a b : str) : str_eqb a b = str_eqb b a.
Proof.
  destruct (str_eqb a b) eqn:E; destruct (str_eqb b a) eqn:F;
    try reflexivity.
  - apply str_eqb_eq in E; subst; rewrite str_eqb_refl in F; discriminate.
  - apply str_eqb_eq in F; subst; rewrite str_eqb_refl in E; discriminate.
Qed.

Lemma count_of_add (x y : str) (c : list (str * nat)) :
  count_of y (counter_add x c)
  = (if str_eqb x y then 1 else 0) + count_of y c.
Proof.
  induction c as [|[z n] c IH]; cbn [counter_add count_of].
  - destruct (str_eqb x y); reflexivity.
  - destruct (str_eqb z x) eqn:E; cbn [count_of].
    + apply str_eqb_eq in E; subst z.
      destruct (str_eqb x y); reflexivity.
    + destruct (str_eqb z y) eqn:F; [|exact IH].
      apply str_eqb_eq in F; subst z.
      rewrite str_eqb_sym, E; reflexivity.
Qed.

Lemma keys_add (x : str) (c : list (str * nat)) :
  (In x (map fst c) -> map fst (counter_add x c) = map fst c)
  /\ (~ In x (map fst c) -> map fst (counter_add x c) = map fst c ++ [x]).
Proof.
  induction c as [|[z n] c [IH1 IH2]]; cbn [counter_add map fst].
  - split; [intros [] | reflexivity].
  - destruct (str_eqb z x) eqn:E; cbn [map fst].
    + split; [reflexivity|].
      apply str_eqb_eq in E; intros K; exfalso; apply K; left; exact E.
    + split.
      * intros [K|K]; [subst; rewrite str_eqb_refl in E; discriminate|].
        rewrite (IH1 K); reflexivity.
      * intros K; cbn [app]; rewrite IH2; [reflexivity|].
        intros X; apply K; right; exact X.
Qed.

Lemma positive_add (x : str) (c : list (str * nat)) :
  Forall (fun p => 0 < snd p) c ->
  Forall (fun p => 0 < snd p) (counter_add x c).
Proof.
  induction 1 as [|[z n] c P F IH]; cbn [counter_add].
  - constructor; [cbn; lia | constructor].
  - destruct (str_eqb z x); constructor; auto; cbn [snd] in *; lia.
Qed.

Lemma NoDup_add (x : str) (c : list (str * nat)) :
  NoDup (map fst c) -> NoDup (map fst (counter_add x c)).
Proof.
  intros N; destruct (keys_add x c) as [K1 K2].
  destruct (in_dec (list_eq_dec N.eq_dec) x (map fst c)) as [I|I].
  - rewrite (K1 I); exact N.
  - rewrite (K2 I); apply NoDup_app; repeat split.
    + exact N.
    + constructor; [intros [] | constructor].
    + intros a Ha [<-|[]]; contradiction.
Qed.

Lemma Counter_facts (l : list str) :
  forall c,
    NoDup (map fst c) ->
    Forall (fun p => 0 < snd p) c ->
    let t := fold_left (fun c x => counter_add x c) l c in
    NoDup (map fst t)
    /\ Forall (fun p => 0 < snd p) t
    /\ forall x, count_of x t = occurrences x l + count_of x c.
Proof.
  induction l as [|y l IH]; intros c N P.
  - cbv zeta; cbn [fold_left]; repeat split; assumption.
  - cbv zeta; cbn [fold_left].
    destruct (IH (counter_add y c) (NoDup_add y c N) (positive_add y c P))
      as [N' [P' C']].
    split; [exact N'|]; split; [exact P'|].
    intros x; rewrite C', count_of_add.
    unfold occurrences; cbn [filter]; rewrite (str_eqb_sym x y).
    destruct (str_eqb y x); cbn [length]; lia.
Qed.

Lemma count_of_In (c : list (str * nat)) (x : str) (n : nat) :
  NoDup (map fst c) ->
  Forall (fun p => 0 < snd p) c ->
  (In (x, n) c <-> count_of x c = n /\ 0 < n).
Proof.
  induction c as [|[z m] c IH]; intros N P.
  - cbn [In count_of]; split; [intros [] | lia].
  - inversion N as [|? ? Nz Nc]; subst.
    inversion P as [|? ? Pm Pc]; subst; cbn [snd] in Pm.
    specialize (IH Nc Pc); cbn [In count_of].
    destruct (str_eqb z x) eqn:E.
    + apply str_eqb_eq in E; subst z; split.
      * intros [K|K]; [inversion K; subst; split; [reflexivity | lia]|].
        exfalso; apply Nz; apply (in_map fst) in K; exact K.
      * intros [-> _]; left; reflexivity.
    + split.
      * intros [K|K]; [|apply IH; exact K].
        inversion K; subst; rewrite str_eqb_refl in E; discriminate.
      * intros K; right; apply IH; exact K.
Qed.

Lemma insert_by_count_perm (p : str * nat) (l : list (str * nat)) :
  Permutation (p :: l) (insert_by_count p l).
Proof.
  induction l as [|q l IH]; cbn [insert_by_count]; [reflexivity|].
  destruct (snd q <=? snd p); [reflexivity|].
  rewrite perm_swap; apply perm_skip; exact IH.
Qed.

Lemma most_common_perm (c : list (str * nat)) :
  Permutation c (most_common c).
Proof.
  unfold most_common; induction c as [|p c IH]; [reflexivity|].
  cbn [fold_right]; rewrite <- insert_by_count_perm.
  apply perm_skip; exact IH.
Qed.

Lemma insert_by_count_sorted (p : str * nat) (l : list (str * nat)) :
  Sorted (fun a b => snd b <= snd a) l ->
  Sorted (fun a b => snd b <= snd a) (insert_by_count p l).
Proof.
  induction 1 as [|q l S IH H]; cbn [insert_by_count].
  - repeat constructor.
  - destruct (Nat.leb_spec (snd q) (snd p)) as [L|L].
    + constructor; [constructor; assumption | constructor; exact L].
    + constructor; [exact IH|].
      destruct l as [|r l]; cbn [insert_by_count].
      * constructor; lia.
      * inversion H; subst.
        destruct (snd r <=? snd p); constructor; [lia | assumption].
Qed.

Lemma most_common_sorted (c : list (str * nat)) :
  Sorted (fun a b => snd b <= snd a) (most_common c).
Proof.
  unfold most_common; induction c as [|p c IH]; [constructor|].
  cbn [fold_right]; apply insert_by_count_sorted; exact IH.
Qed.

(** X14.  The table of publication types that [show_statistics] goes
    through holds each publication type of the records once, with the
    number of its occurrences, and is ordered by decreasing count. *)
Theorem frequency_table (types : list str) :
  let table := most_common (Counter types) in
  StronglySorted (fun a b => snd b <= snd a) table
  /\ NoDup (map fst table)
  /\ forall x n,
       In (x, n) table <-> n = occurrences x types /\ 0 < n.
Proof.
  intros table.
  destruct (Counter_facts types [] (NoDup_nil _) (Forall_nil _))
    as [N [P C]]; cbv zeta in N, P, C; fold (Counter types) in N, P, C.
  pose proof (most_common_perm (Counter types)) as M; fold table in M.
  split; [|split].
  - apply Sorted_StronglySorted.
    + intros a b c H1 H2; lia.
    + apply most_common_sorted.
  - apply (Permutation_NoDup (Permutation_map fst M)); exact N.
  - intros x n; split.
    + intros I; apply (Permutation_in _ (Permutation_sym M)) in I.
      apply (count_of_In (Counter types) x n N P) in I.
      destruct I as [I Z]; rewrite C in I; cbn [count_of] in I.
      split; [lia | exact Z].
    + intros [E Z]; apply (Permutation_in _ M).
      apply (count_of_In (Counter types) x n N P).
      rewrite C; cbn [count_of]; split; [lia | exact Z].
Qed.

(** ** Retention, read off the lines of a block *)

Lemma last_pmid_line (lines : list str) :
  Forall (fun l => startswith l (u "PMID-") = false) lines
  \/ exists pre line post,
       lines = pre ++ line :: post
       /\ startswith line (u "PMID-") = true
       /\ Forall (fun l => startswith l (u "PMID-") = false) post.
Proof.
  induction lines as [|l lines [IH|[pre [line [post [E [H F]]]]]]].
  - left; constructor.
  - destruct (startswith l (u "PMID-")) eqn:K.
    + right; exists [], l, lines; repeat split; assumption.
    + left; constructor; assumption.
  - right; exists (l :: pre), line, post; subst lines.
    repeat split; assumption.
Qed.

(** X16.  A block is retained exactly when the last of its [PMID-] lines
    has a text that is not white space only after the prefix, and one of
    its [PT  -] lines has, once trimmed, one of the four review keywords
    as its text after the prefix. *)
Theorem retained_by_lines (block : str) :
  (exists info, _extract_if_review block = Ok (Some info))
  <->
  (exists pre line post,
     split nl (strip block) = pre ++ line :: post
     /\ startswith line (u "PMID-") = true
     /\ Forall (fun l => startswith l (u "PMID-") = false) post
     /\ strip (skipn 5 line) <> [])
  /\ (exists line,
        In line (split nl (strip block))
        /\ startswith line (u "PT  -") = true
        /\ In (strip (skipn 5 line))
              [u "Review"; u "Systematic Review"; u "Meta-Analysis";
               u "review"]).
Proof.
  destruct (scan_lines_publication_types (split nl (strip block)) locals0)
    as [st [E T]].
  cbn [locals0 l_publication_types app] in T.
  assert (B : scan_block block = Ok (flush_last st)).
  { unfold scan_block; rewrite E; reflexivity. }
  rewrite (extract_of_scan block _ B).
  cbn [flush_last l_publication_types l_pmid].
  assert (P : existsb (fun keyword => mem keyword (l_publication_types st))
                      review_keywords = true
              <-> exists line,
                    In line (split nl (strip block))
                    /\ startswith line (u "PT  -") = true
                    /\ In (strip (skipn 5 line)) review_keywords).
  { rewrite is_review_true, T; split.
    - intros [k [K1 K2]]; apply in_map_iff in K2.
      destruct K2 as [line [<- K2]]; apply filter_In in K2.
      exists line; tauto.
    - intros [line [I [H K]]]; exists (strip (skipn 5 line)).
      split; [exact K|].
      apply in_map_iff; exists line; split; [reflexivity|].
      apply filter_In; tauto. }
  assert (Q : truthy (l_pmid st) = true
              <-> exists pre line post,
                    split nl (strip block) = pre ++ line :: post
                    /\ startswith line (u "PMID-") = true
                    /\ Forall (fun l => startswith l (u "PMID-") = false)
                              post
                    /\ strip (skipn 5 line) <> []).
  { destruct (last_pmid_line (split nl (strip block)))
      as [F|[pre [line [post [S [H F]]]]]].
    - destruct (scan_lines_no_pmid_line _ F locals0) as [st' [E' P']].
      rewrite E in E'; apply Ok_inj in E'; subst st'.
      rewrite P'; cbn [locals0 l_pmid truthy]; split; [discriminate|].
      intros [pre [line [post [S [H _]]]]]; exfalso.
      rewrite S in F; apply Forall_app in F; destruct F as [_ F].
      inversion F; congruence.
    - assert (V : l_pmid st = strip (skipn 5 line)).
      { destruct (scan_block_split block pre post line S)
          as [st0 [st1 [st2 [E0 [E1 [E2 B2]]]]]].
        rewrite B in B2; apply Ok_inj in B2.
        rewrite (scan_line_PMID st0 line H) in E1.
        apply Ok_inj in E1; subst st1.
        destruct (scan_lines_no_pmid_line post F
                    {| l_pmid := strip (skipn 5 line);
                       l_title := l_title st0;
                       l_publication_types := l_publication_types st0;
                       current_field := current_field st0;
                       current_value := current_value st0 |})
          as [st' [E' P']].
        rewrite E' in E2; apply Ok_inj in E2; subst st'.
        apply (f_equal l_pmid) in B2; cbn [flush_last l_pmid] in B2.
        rewrite B2; exact P'. }
      rewrite truthy_true, V; split.
      + intros K; exists pre, line, post; repeat split; assumption.
      + intros [pre' [line' [post' [S' [H' [F' K']]]]]].
        assert (X : pre = pre' /\ line = line' /\ post = post').
        { rewrite S in S'; clear - S' H H' F F'.
          revert pre' S'; induction pre as [|a pre IH]; intros pre' S'.
          - destruct pre' as [|a' pre'].
            + inversion S'; auto.
            + exfalso; cbn [app] in S'; inversion S'; subst.
              apply Forall_app in F; destruct F as [_ F].
              inversion F; congruence.
          - destruct pre' as [|a' pre'].
            + exfalso; cbn [app] in S'; inversion S'; subst.
              apply Forall_app in F'; destruct F' as [_ F'].
              inversion F'; congruence.
            + cbn [app] in S'; inversion S'; subst.
              destruct (IH pre' H2) as [-> [-> ->]]; auto. }
        destruct X as [_ [-> _]]; exact K'. }
  destruct (existsb _ review_keywords) eqn:R;
    destruct (truthy (l_pmid st)) eqn:U; cbn [andb].
  - split; [intros _ | intros _; eauto].
    split; [apply Q; reflexivity | apply P; reflexivity].
  - split; [intros [info K]; discriminate|].
    intros [K _]; apply Q in K; discriminate.
  - split; [intros [info K]; discriminate|].
    intros [_ K]; apply P in K; discriminate.
  - split; [intros [info K]; discriminate|].
    intros [K _]; apply Q in K; discriminate.
Qed.

(** ** A title after a publication-type line *)

(** C3.  The code departs from it.  In the block below the [TI  -] line
    is followed by one continuation line; the indented line that comes
    after the [PT  -] line is appended to the title as well, which is
    "A B C" and not "A B".  The example block, where nothing indented
    follows the [PT  -] line, gives the record of the claim, and a run
    over a file that holds it writes the line "12345" after the header and
    its empty line. *)
Theorem title_takes_line_after_PT_line (lower : str -> str) :
  split nl (strip (u "PMID- 1" ++ nl :: u "TI  - A" ++ nl :: u "      B"
                     ++ nl :: u "PT  - Review" ++ nl :: u "      C"))
  = [u "PMID- 1"; u "TI  - A"; u "      B"; u "PT  - Review"; u "      C"]
  /\ _extract_if_review
       (u "PMID- 1" ++ nl :: u "TI  - A" ++ nl :: u "      B" ++ nl
          :: u "PT  - Review" ++ nl :: u "      C")
     = Ok (Some {| pmid := u "1"; title := u "A B C";
                   publication_types := [u "Review"] |})
  /\ _extract_if_review example_block
     = Ok (Some {| pmid := u "12345"; title := u "A Study of Widgets";
                   publication_types := [u "Review"] |})
  /\ exists s',
       main lower [u "in.txt"] (u "out.txt") (u "pmid")
         {| review_articles := []; stdout := [];
            disk := [(u "in.txt", example_block)] |} = Ok (tt, s')
       /\ review_articles s'
          = [{| pmid := u "12345"; title := u "A Study of Widgets";
                publication_types := [u "Review"] |}]
       /\ disk s'
          = [(u "out.txt", unlines (header_lines 1 ++ [[]; u "12345"]));
             (u "in.txt", example_block)].
Proof.
  split; [reflexivity|]; split; [reflexivity|]; split; [reflexivity|].
  destruct (main_result lower [u "in.txt"] (u "out.txt") (u "pmid")
              {| review_articles := []; stdout := [];
                 disk := [(u "in.txt", example_block)] |})
    as [s' [E [R D]]].
  exists s'; split; [exact E|].
  rewrite R, D; split; vm_compute; reflexivity.
Qed.

(** ** The last identifier line and the last title line *)

(** X17.  The identifier of the record of a block is the trimmed text that
    follows the prefix of the last [PMID-] line of the block: the lines
    before it do not count, and when that text is empty no record is
    returned. *)
Theorem last_identifier_line_wins
    (block : str) (pre post : list str) (line : str) :
  split nl (strip block) = pre ++ line :: post ->
  startswith line (u "PMID-") = true ->
  Forall (fun l => startswith l (u "PMID-") = false) post ->
  (forall info,
     _extract_if_review block = Ok (Some info) ->
     pmid info = strip (skipn 5 line))
  /\ (strip (skipn 5 line) = [] -> _extract_if_review block = Ok None).
Proof.
  intros S H F.
  destruct (scan_block_split block pre post line S)
    as [st0 [st1 [st2 [E0 [E1 [E2 E]]]]]].
  rewrite (scan_line_PMID st0 line H) in E1; apply Ok_inj in E1; subst st1.
  destruct (scan_lines_no_pmid_line post F
              {| l_pmid := strip (skipn 5 line); l_title := l_title st0;
                 l_publication_types := l_publication_types st0;
                 current_field := current_field st0;
                 current_value := current_value st0 |}) as [st' [E' P]].
  rewrite E' in E2; apply Ok_inj in E2; subst st2.
  cbn [l_pmid] in P.
  rewrite (extract_of_scan block _ E); cbn [flush_last l_pmid].
  rewrite P; split.
  - intros info X; destruct (_ && _); [|discriminate].
    apply Ok_inj in X; injection X as <-.
    cbn [record_of pmid flush_last l_pmid]; exact P.
  - intros ->; cbn [truthy]; rewrite andb_false_r; reflexivity.
Qed.

Lemma last_identifier_line_wins_witness :
  exists info,
    _extract_if_review
      (u "PMID- 1" ++ nl :: u "PT  - Review" ++ nl :: u "PMID- 2") =
      Ok (Some info)
    /\ pmid info = u "2".
Proof.
  eexists; split; [vm_compute; reflexivity|].
  refine (proj1 (last_identifier_line_wins
                   (u "PMID- 1" ++ nl :: u "PT  - Review" ++ nl
                      :: u "PMID- 2")
                   [u "PMID- 1"; u "PT  - Review"] [] (u "PMID- 2")
                   eq_refl eq_refl (Forall_nil _)) _ _).
  vm_compute; reflexivity.
Defined.

Lemma continuation_lines_indented (conts rest : list str) :
  Forall (fun l => startswith l (u "      ") = true) conts ->
  continuation_lines (conts ++ rest) = conts ++ continuation_lines rest.
Proof.
  induction 1 as [|l conts H F IH]; [reflexivity|].
  destruct (six_spaces_not_field l H) as [H1 [_ H3]].
  cbn [app continuation_lines]; rewrite H1, H3, H, IH; reflexivity.
Qed.

Lemma continuation_lines_fields (fields rest : list str) :
  Forall (fun l => startswith l (u "PMID-") || startswith l (u "PT  -")
                   = true) fields ->
  continuation_lines (fields ++ rest) = continuation_lines rest.
Proof.
  induction 1 as [|l fields H F IH]; [reflexivity|].
  cbn [app continuation_lines]; rewrite H; exact IH.
Qed.

Lemma field_line_not_title (l : str) :
  startswith l (u "PMID-") || startswith l (u "PT  -") = true ->
  startswith l (u "TI  -") = false.
Proof.
  intros H; apply orb_true_iff in H; destruct H as [H|H];
    destruct (startswith_prefix _ _ H) as [t ->]; reflexivity.
Qed.

(** X18.  When the last [TI  -] line of a block is followed by indented
    lines, then by [PMID-] and [PT  -] lines only, up to the end of the
    block or to a line of another field, the title of the record is the
    trimmed text after the prefix of the [TI  -] line followed, each after
    one space, by the trimmed indented lines, in order; what the lines
    before the [TI  -] line had accumulated is discarded. *)
Theorem title_with_continuations
    (block : str) (pre conts fields tail : list str) (ti : str) :
  split nl (strip block) = pre ++ ti :: conts ++ fields ++ tail ->
  startswith ti (u "TI  -") = true ->
  Forall (fun l => startswith l (u "      ") = true) conts ->
  Forall (fun l => startswith l (u "PMID-") || startswith l (u "PT  -")
                   = true) fields ->
  Forall (fun l => startswith l (u "TI  -") = false) tail ->
  match tail with
  | [] => True
  | l :: _ =>
      startswith l (u "PMID-") = false
      /\ startswith l (u "PT  -") = false
      /\ startswith l (u "      ") = false
  end ->
  exists st,
    scan_block block = Ok st
    /\ l_title st
       = strip (skipn 5 ti) ++ flat_map (fun l => u " " ++ strip l) conts
    /\ forall info,
         _extract_if_review block = Ok (Some info) ->
         title info
         = strip (skipn 5 ti) ++ flat_map (fun l => u " " ++ strip l) conts.
Proof.
  intros S Hti Hc Hf Ht Hhd.
  destruct (scan_block_split block pre (conts ++ fields ++ tail) ti S)
    as [st0 [st1 [st2 [E0 [E1 [E2 E]]]]]].
  assert (F : Forall (fun l => startswith l (u "TI  -") = false)
                     (conts ++ fields ++ tail)).
  { apply Forall_app; split; [|apply Forall_app; split; [|exact Ht]].
    - eapply Forall_impl; [|exact Hc].
      intros l H; apply (six_spaces_not_field l H).
    - eapply Forall_impl; [|exact Hf].
      intros l H; apply field_line_not_title; exact H. }
  assert (C : continuation_lines (conts ++ fields ++ tail) = conts).
  { rewrite (continuation_lines_indented conts _ Hc).
    rewrite (continuation_lines_fields fields _ Hf).
    destruct tail as [|l tail]; [apply app_nil_r|].
    destruct Hhd as [H1 [H2 H3]].
    cbn [continuation_lines]; rewrite H1, H2, H3; apply app_nil_r. }
  pose proof (scan_title_line st0 st1 st2 ti _ Hti F E1 E2) as T.
  rewrite C in T.
  exists (flush_last st2); split; [exact E|]; split; [exact T|].
  intros info X; rewrite (extract_of_scan block _ E) in X.
  destruct (_ && _); [|discriminate].
  apply Ok_inj in X; injection X as <-; exact T.
Qed.

Lemma title_with_continuations_witness :
  exists info,
    _extract_if_review example_block = Ok (Some info)
    /\ title info = u "A Study of Widgets".
Proof.
  eexists; split; [vm_compute; reflexivity|].
  destruct (title_with_continuations example_block
              [u "PMID- 12345"] [u "      Widgets"] [u "PT  - Review"] []
              (u "TI  - A Study of")
              eq_refl eq_refl
              ltac:(repeat constructor) ltac:(repeat constructor)
              (Forall_nil _) I) as [st [_ [_ T]]].
  rewrite (T _ ltac:(vm_compute; reflexivity)); reflexivity.
Defined.
